(** * og-sdk: the resource model of [OgResource.js] over the transport of
    [OgApi.js]

    A shallow embedding of [src/Libs/Resources/OgResource.js] and of the
    part of [src/Libs/Http/OgApi.js] it drives, and the properties of the
    resource model stated against it.

    Conventions of the embedding.
    - JavaScript values are trees ([Value]): [undefined], [null], booleans,
      numbers, strings, plain objects and Resource instances; arrays and
      functions are not among them, and two paths of a value never share
      one object.  The one sharing that the code sets up and then writes
      through, between the output of [toJSON] and the stored attributes,
      is followed by [snapshot].
      Numbers are the integer-valued doubles of the safe range and NaN.
      Whatever would leave that range (a fractional result of [parseFloat],
      an integer beyond 2^53-1, a write into a property of a Resource
      instance, a write that would create an array) is reported as
      [OutOfModel] and never given a made-up value.
    - Property names and path segments are identifiers.  They are assumed
      not to name members of the built-in prototypes ([constructor],
      [toString], [length], ...) nor members of the classes ([fill],
      [$attributes], ...), and not to be array indices ([0], [1], ...),
      which JavaScript lists before the other keys of an object and reads
      as positions of a string.  Paths are [.]-separated; the bracket
      syntax of lodash paths is not used.
    - A JavaScript exception is the outcome [Throw]; the state reached when
      it is raised is kept, as the instance survives the exception. *)

From Stdlib Require Import ZArith List String Ascii Bool Lia DecimalString.
From Stdlib Require DecimalPos DecimalZ.
Import ListNotations.
Local Open Scope string_scope.
Local Open Scope Z_scope.
#[local] Set Warnings "-register-all".

(** ** Outcomes of an evaluation *)

Inductive Exn : Type :=
| TypeError                  (* property read or call on undefined/null, call of a non-function *)
| Error (message : string)   (* [new Error(message)] *)
| Rejected.                  (* a rejection raised inside the transport call *)

Inductive Outcome (A : Type) : Type :=
| Ret (a : A)
| Throw (e : Exn)
| OutOfModel.
Arguments Ret {A} a.
Arguments Throw {A} e.
Arguments OutOfModel {A}.

Definition bind {A B} (m : Outcome A) (f : A -> Outcome B) : Outcome B :=
  match m with
  | Ret a => f a
  | Throw e => Throw e
  | OutOfModel => OutOfModel
  end.

Notation "'let*' x ':=' m 'in' k" := (bind m (fun x => k))
  (at level 10, x name, m at level 100, k at level 200).

(** ** Values *)

Inductive Num : Type :=
| NNaN
| NInt (z : Z).

(** A type descriptor as it is stored in [$casts]: a string, or a class
    that extends [OgResource].  A class is given by what its constructor
    does after [super(api, attributes, cpath)]: it declares [cdefs] with
    [define], and, when [cfill] is set, fills itself from the constructor's
    attributes again.  The classes that extend [OgResourceCast], which is
    not under [src/], are not among the descriptors. *)
Inductive CastType : Type :=
| TName (name : string)
| TClass (c : ResClass)
with ResClass : Type :=
| MkClass (cpath : string) (cdefs : list (string * CastType)) (cfill : bool).

(** The object a Resource holds in [$api], as far as the Resource reads it:
    its identity, what its [config] property evaluates to, and, for a
    transport, whether it has an [abort] method. *)
Inductive Collab : Type :=
| CUndefined
| CConfig (id : nat) (config : Collab)
| CApi (id : nat) (config : Collab) (has_abort : bool).

Record Status : Type := MkStatus
  { updating : bool; fetching : bool; creating : bool; deleting : bool }.

(** The normalized result object of the transport, [OgApi.$response]. *)
Record ApiResponse (V : Type) : Type := MkApiResponse
  { ok : bool; message : string; status : Z; data : V }.
Arguments MkApiResponse {V}.
Arguments ok {V}. Arguments message {V}. Arguments status {V}. Arguments data {V}.

Inductive Value : Type :=
| VUndefined
| VNull
| VBool (b : bool)
| VNum (n : Num)
| VStr (s : string)
| VObj (props : list (string * Value))
| VRes (r : Resource)
with Resource : Type :=
| MkResource (api : Collab) (response : Response) (fillable : list string)
    (casts : list (string * CastType)) (attributes : list (string * Value))
    (primaryKey : string) (status : Status) (path : string)
with Response : Type :=
| RWrapper (config : Collab) (last : option (ApiResponse unit))
| RPlain (v : Value).

Definition Props : Type := list (string * Value).

(** Field reads of a Resource instance. *)
Definition r_api (r : Resource) : Collab :=
  match r with MkResource a _ _ _ _ _ _ _ => a end.
Definition r_response (r : Resource) : Response :=
  match r with MkResource _ x _ _ _ _ _ _ => x end.
Definition r_fillable (r : Resource) : list string :=
  match r with MkResource _ _ f _ _ _ _ _ => f end.
Definition r_casts (r : Resource) : list (string * CastType) :=
  match r with MkResource _ _ _ c _ _ _ _ => c end.
Definition r_attributes (r : Resource) : Props :=
  match r with MkResource _ _ _ _ a _ _ _ => a end.
Definition r_primaryKey (r : Resource) : string :=
  match r with MkResource _ _ _ _ _ k _ _ => k end.
Definition r_status (r : Resource) : Status :=
  match r with MkResource _ _ _ _ _ _ s _ => s end.
Definition r_path (r : Resource) : string :=
  match r with MkResource _ _ _ _ _ _ _ p => p end.

(** Field writes. *)
Definition with_response (x : Response) (r : Resource) : Resource :=
  match r with MkResource a _ f c at_ k s p => MkResource a x f c at_ k s p end.
Definition with_fillable (f : list string) (r : Resource) : Resource :=
  match r with MkResource a x _ c at_ k s p => MkResource a x f c at_ k s p end.
Definition with_casts (c : list (string * CastType)) (r : Resource) : Resource :=
  match r with MkResource a x f _ at_ k s p => MkResource a x f c at_ k s p end.
Definition with_attributes (at_ : Props) (r : Resource) : Resource :=
  match r with MkResource a x f c _ k s p => MkResource a x f c at_ k s p end.
Definition with_status (s : Status) (r : Resource) : Resource :=
  match r with MkResource a x f c at_ k _ p => MkResource a x f c at_ k s p end.

(** ** The language's primitives *)
Module Js.

(** ToBoolean. *)
Definition truthy (v : Value) : bool :=
  match v with
  | VUndefined | VNull => false
  | VBool b => b
  | VNum NNaN => false
  | VNum (NInt z) => negb (z =? 0)
  | VStr s => negb (s =? "")%string
  | VObj _ | VRes _ => true
  end.

Definition MAX_SAFE_INTEGER : Z := 2 ^ 53 - 1.

Definition safe (z : Z) : bool := Z.abs z <=? MAX_SAFE_INTEGER.

(** ToString.  A plain object prints as [[object Object]]; the string form
    of a Resource instance depends on its superclass and is left out. *)
Definition toString (v : Value) : Outcome string :=
  match v with
  | VUndefined => Ret "undefined"
  | VNull => Ret "null"
  | VBool true => Ret "true"
  | VBool false => Ret "false"
  | VNum NNaN => Ret "NaN"
  | VNum (NInt z) =>
      if safe z then Ret (NilZero.string_of_int (Z.to_int z)) else OutOfModel
  | VStr s => Ret s
  | VObj _ => Ret "[object Object]"
  | VRes _ => OutOfModel
  end.

(** Own-property read [o[key]] for a key that is an identifier, with
    [undefined] for a missing property and for every read on a primitive
    or on an instance. *)
Fixpoint lookup {A} (key : string) (l : list (string * A)) : option A :=
  match l with
  | [] => None
  | (k, v) :: l' => if (k =? key)%string then Some v else lookup key l'
  end.

Definition prop (v : Value) (key : string) : Value :=
  match v with
  | VObj props => match lookup key props with Some x => x | None => VUndefined end
  | _ => VUndefined
  end.

(** Property write [o[key] = v] on the own properties of a plain object,
    for a key that is an identifier: an existing property keeps its place,
    a new one goes last. *)
Fixpoint assign {A} (key : string) (v : A) (l : list (string * A)) : list (string * A) :=
  match l with
  | [] => [(key, v)]
  | (k, x) :: l' => if (k =? key)%string then (k, v) :: l' else (k, x) :: assign key v l'
  end.

(** [Object.keys]. *)
Definition keys {A} (l : list (string * A)) : list string := map fst l.

(** *** [parseInt(value, 10)] and [parseFloat(value)] *)

Definition code (c : ascii) : Z := Z.of_nat (nat_of_ascii c).

(** The ASCII white space and line terminators that the parsers skip. *)
Definition is_space (c : ascii) : bool :=
  let n := code c in
  (n =? 9) || (n =? 10) || (n =? 11) || (n =? 12) || (n =? 13) || (n =? 32).

Definition digit (c : ascii) : option Z :=
  let n := code c in
  if (48 <=? n) && (n <=? 57) then Some (n - 48) else None.

(** Leading white space removed; a byte outside ASCII there may begin a
    Unicode white space and is left out of the model. *)
Fixpoint trimStart (s : string) : Outcome string :=
  match s with
  | EmptyString => Ret EmptyString
  | String c s' =>
      if is_space c then trimStart s'
      else if 128 <=? code c then OutOfModel
      else Ret s
  end.

Definition sign_of (s : string) : Z * string :=
  match s with
  | String "-" s' => (-1, s')
  | String "+" s' => (1, s')
  | _ => (1, s)
  end.

(** The longest prefix of decimal digits: its value, whether it is not
    empty, and what follows it. *)
Fixpoint digits (s : string) (acc : Z) (seen : bool) : Z * bool * string :=
  match s with
  | EmptyString => (acc, seen, s)
  | String c s' =>
      match digit c with
      | Some d => digits s' (10 * acc + d) true
      | None => (acc, seen, s)
      end
  end.

Definition number (z : Z) : Outcome Num :=
  if safe z then Ret (NInt z) else OutOfModel.

Definition parseInt_string (s : string) : Outcome Num :=
  let* t := trimStart s in
  let '(sg, u) := sign_of t in
  match digits u 0 false with
  | (_, false, _) => Ret NNaN
  | (z, true, _) => number (sg * z)
  end.

Definition parseInt (v : Value) : Outcome Num :=
  let* s := toString v in parseInt_string s.

Definition starts_with (p s : string) : bool :=
  (substring 0 (String.length p) s =? p)%string.

(** [parseFloat] reads a decimal literal.  An integer literal gives that
    integer and a string with no literal at its head gives NaN; a literal
    with a fraction or an exponent, and [Infinity], are left out. *)
Definition parseFloat_string (s : string) : Outcome Num :=
  let* t := trimStart s in
  let '(sg, u) := sign_of t in
  match digits u 0 false with
  | (_, false, rest) =>
      if starts_with "." rest || starts_with "Infinity" rest
      then OutOfModel else Ret NNaN
  | (z, true, rest) =>
      if starts_with "." rest || starts_with "e" rest || starts_with "E" rest
      then OutOfModel else number (sg * z)
  end.

Definition parseFloat (v : Value) : Outcome Num :=
  let* s := toString v in parseFloat_string s.

(** [n || 0] on a number. *)
Definition or_zero (n : Num) : Value :=
  if truthy (VNum n) then VNum n else VNum (NInt 0).

End Js.

(** ** lodash's [get] and [set] on [.]-separated paths *)
Module Lodash.

Definition is_dot (c : ascii) : bool := (Js.code c =? 46).

Fixpoint stringToPath (s : string) : list string :=
  match s with
  | EmptyString => [EmptyString]
  | String c s' =>
      if is_dot c then EmptyString :: stringToPath s'
      else match stringToPath s' with
           | h :: t => String c h :: t
           | [] => [String c EmptyString]
           end
  end.

Fixpoint has_dot (s : string) : bool :=
  match s with
  | EmptyString => false
  | String c s' => is_dot c || has_dot s'
  end.

(** [castPath]: a path is one key when it has no dot or when the object has
    a property of that very name, and is split at its dots otherwise. *)
Definition castPath (path : string) (object : Value) : list string :=
  if has_dot path then
    match object with
    | VObj props =>
        match Js.lookup path props with
        | Some _ => [path]
        | None => stringToPath path
        end
    | _ => stringToPath path
    end
  else [path].

Definition nullish (v : Value) : bool :=
  match v with VUndefined | VNull => true | _ => false end.

Fixpoint baseGet (segs : list string) (object : Value) : Value :=
  match segs with
  | [] => object
  | key :: rest =>
      if nullish object then VUndefined else baseGet rest (Js.prop object key)
  end.

Definition get (object : Value) (path : string) (defaultValue : Value) : Value :=
  let result :=
    if nullish object then VUndefined else baseGet (castPath path object) object in
  match result with
  | VUndefined => defaultValue
  | _ => result
  end.

(** A segment made of digits makes [set] create an array. *)
Fixpoint all_digits (s : string) : bool :=
  match s with
  | EmptyString => true
  | String c s' => match Js.digit c with Some _ => all_digits s' | None => false end
  end.

Definition isIndex (s : string) : bool :=
  negb (s =? "")%string && all_digits s.

Fixpoint baseSet (segs : list string) (value : Value) (nested : Props) : Outcome Props :=
  match segs with
  | [] => Ret nested
  | key :: rest =>
      match rest with
      | [] => Ret (Js.assign key value nested)
      | next :: _ =>
          match Js.prop (VObj nested) key with
          | VObj inner =>
              let* inner' := baseSet rest value inner in
              Ret (Js.assign key (VObj inner') nested)
          | VRes _ => OutOfModel
          | _ =>
              if isIndex next then OutOfModel
              else let* inner' := baseSet rest value [] in
                   Ret (Js.assign key (VObj inner') nested)
          end
      end
  end.

(** [set(object, path, value)] on a plain object, given by its properties. *)
Definition set (object : Props) (path : string) (value : Value) : Outcome Props :=
  baseSet (castPath path (VObj object)) value object.

End Lodash.

(** ** The transport, [OgApi] *)
Module OgApi.

(** What the awaited [fetch] resolves to, as far as [request] reads it;
    [json] is the outcome of [resp.json()]. *)
Record FetchResponse : Type := MkFetchResponse
  { resp_ok : bool; resp_status : Z; resp_statusText : string;
    resp_json : Outcome Value }.

Definition State : Type := ApiResponse Value.

(** [$response] as the constructor leaves it. *)
Definition initial : State :=
  MkApiResponse true "" 200 (VObj []).

Definition HTTP_NO_CONTENT : Z := 204.

(** [request], given the outcome of everything up to the awaited [fetch]
    (the url, the merged headers, the serialized body and the call): the
    new [$response], and whether the method returned. *)
Definition request (st : State) (fetched : Outcome FetchResponse) : State * Outcome unit :=
  match fetched with
  | Ret resp =>
      if resp_ok resp then
        match (if negb (resp_status resp =? HTTP_NO_CONTENT)
               then resp_json resp else Ret (VObj [])) with
        | Ret d => (MkApiResponse true (resp_statusText resp) (status st) d, Ret tt)
        | Throw e => (st, Throw e)
        | OutOfModel => (st, OutOfModel)
        end
      else
        (MkApiResponse false (resp_statusText resp) (resp_status resp) (VObj []), Ret tt)
  | Throw e => (st, Throw e)
  | OutOfModel => (st, OutOfModel)
  end.

Definition post (st : State) (fetched : Outcome FetchResponse) : State * Outcome Value :=
  let '(st', done) := request st fetched in
  (st', let* _ := done in Ret (data st')).

End OgApi.

(** ** The response wrapper, [OgResponse] *)
Module OgResponse.

(** Modelled from the spec: [OgResponse] is not under [src/].  The Response
    Wrapper exposes [failed], [message] and [status] derived from the last
    transport result, and [clear()] forgets that result. *)
Definition create (config : Collab) : Response := RWrapper config None.

Definition clear (x : Response) : Outcome Response :=
  match x with
  | RWrapper config _ => Ret (RWrapper config None)
  | RPlain _ => Throw TypeError      (* a plain payload has no [clear] method *)
  end.

(** [$response.failed] and [$response.message]: the wrapper's accessors, or
    a property read when [$response] holds a plain value. *)
Definition failed (x : Response) : Outcome Value :=
  match x with
  | RWrapper _ None => Ret (VBool false)
  | RWrapper _ (Some res) => Ret (VBool (negb (ok res)))
  | RPlain v => if Lodash.nullish v then Throw TypeError else Ret (Js.prop v "failed")
  end.

Definition message (x : Response) : Outcome Value :=
  match x with
  | RWrapper _ None => Ret (VStr "")
  | RWrapper _ (Some res) => Ret (VStr (message res))
  | RPlain v => if Lodash.nullish v then Throw TypeError else Ret (Js.prop v "message")
  end.

End OgResponse.

(** [c.config], a property read that throws on [undefined]. *)
Definition config_of (c : Collab) : Outcome Collab :=
  match c with
  | CUndefined => Throw TypeError
  | CConfig _ cfg => Ret cfg
  | CApi _ cfg _ => Ret cfg
  end.

(** What a method body needs from the classes of the nested casts: the
    constructor call [new type(config, value)] and the [SCHEMA] getter of
    the instance it returns. *)
Record Lower : Type := MkLower
  { new_ : ResClass -> Collab -> Value -> Outcome Resource;
    schema_ : Resource -> Outcome Props }.

(** A method that mutates [this]: the instance it leaves, and whether it
    returned. *)
Definition Method : Type := Resource -> Resource * Outcome unit.

Definition andThen (m1 m2 : Method) : Method :=
  fun r =>
    match m1 r with
    | (r1, Ret _) => m2 r1
    | (r1, Throw e) => (r1, Throw e)
    | (r1, OutOfModel) => (r1, OutOfModel)
    end.

(** [xs.forEach(x => body(x))] on the instance. *)
Fixpoint forEach {A} (xs : list A) (body : A -> Method) : Method :=
  match xs with
  | [] => fun r => (r, Ret tt)
  | x :: xs' => andThen (body x) (forEach xs' body)
  end.

(** A loop that builds a plain object, [out], key by key. *)
Fixpoint build (paths : list string) (step : Props -> string -> Outcome Props)
    (out : Props) : Outcome Props :=
  match paths with
  | [] => Ret out
  | p :: paths' => let* out' := step out p in build paths' step out'
  end.

(** A parameter declared [x = null]: [undefined] is replaced by [null]. *)
Definition orNull (v : Value) : Value :=
  match v with VUndefined => VNull | _ => v end.

(** [p] is a prefix of [s], [s] itself included. *)
Fixpoint prefix (p s : list string) : bool :=
  match p, s with
  | [], _ => true
  | a :: p', b :: s' => (a =? b)%string && prefix p' s'
  | _ :: _, [] => false
  end.

(** [s] runs through [p] and goes on. *)
Definition extends (s p : list string) : bool := prefix p s && negb (prefix s p).

Definition same_path (p q : list string) : bool := prefix p q && prefix q p.

(** [typeof v === 'object'] and not [null]: a value held by reference. *)
Definition is_object (v : Value) : bool :=
  match v with
  | VObj _ | VRes _ => true
  | _ => false
  end.

(** ** The method bodies of [OgResource] *)
Module Body.
Section Methods.

Variable lo : Lower.

Definition getCastValue (config : Collab) (key : string)
    (casts : list (string * CastType)) (value : Value) : Outcome Value :=
  let value := orNull value in
  match Js.lookup key casts with
  | None => Ret value
  | Some (TName EmptyString) => Ret value
  | Some (TClass type) =>
      let* child := new_ lo type config value in Ret (VRes child)
  | Some (TName type) =>
      if (type =? "boolean")%string then
        Ret (VBool (Js.truthy value))
      else if (type =? "string")%string then
        if Js.truthy value
        then let* s := Js.toString value in Ret (VStr s)
        else Ret (VStr "")
      else if (type =? "integer")%string then
        let* n := Js.parseInt value in Ret (Js.or_zero n)
      else if (type =? "decimal")%string then
        let* n := Js.parseFloat value in Ret (Js.or_zero n)
      else Ret value
  end.

Definition SCHEMA (r : Resource) : Outcome Props :=
  build (Js.keys (r_casts r))
    (fun schema path =>
       let* config := config_of (r_api r) in
       let* cast := getCastValue config path (r_casts r) VNull in
       let* schema1 := Lodash.set schema path cast in
       match Lodash.get (VObj schema1) path VUndefined with
       | VRes value =>
           let* inner := schema_ lo value in
           Lodash.set schema1 path (VObj inner)
       | _ => Ret schema1
       end)
    [].

Definition get (r : Resource) (path : string) (defaultValue : Value) : Outcome Value :=
  let defaultValue := orNull defaultValue in
  let value := Lodash.get (VObj (r_attributes r)) path defaultValue in
  if negb (Js.truthy value) then
    let* schema := SCHEMA r in
    Ret (Lodash.get (VObj schema) path defaultValue)
  else Ret value.

Definition filled (r : Resource) (path : string) : bool :=
  match Lodash.get (VObj (r_attributes r)) path VNull with
  | VNull => false
  | _ => true
  end.

(** [toJSON] as it runs: the object it builds, [out], and [$attributes]
    as the call leaves them, [store].

    [this.get(path)] answers the stored value itself when it is truthy, so
    [set(out, path, ...)] puts an object of the store into [out], and the
    [set] of a later cast path that runs through that object writes into
    the store, where the next [get] reads it: with the casts [a] and [a.b]
    and [{a: {c: 1}}] stored, the call returns [{a: {c: 1, b: 0}}] and
    leaves it stored as well.

    [shared] lists the paths of [out] that hold an object of the store,
    each with the path of that object in the store.  A [set] at [segs]
    detaches what [out] held at [segs] and below; when [segs] runs through
    a shared path it writes into the shared object, that is into the store
    at the path of that object followed by the rest of [segs].  A write
    that would put an object of the store at a second place of the store
    is not followed: [$attributes] is no longer a tree then. *)
Fixpoint snapshot (r : Resource) (paths : list string)
    (shared : list (list string * list string)) (out store : Props)
  : Outcome (Props * Props) :=
  match paths with
  | [] => Ret (out, store)
  | path :: paths' =>
      let* v := get (with_attributes store r) path VNull in
      let segs := Lodash.castPath path (VObj out) in
      let found := Lodash.castPath path (VObj store) in
      let kept := Js.truthy (Lodash.get (VObj store) path VNull) && is_object v in
      let* out' := Lodash.set out path v in
      let* store' :=
        match find (fun root => extends segs (fst root)) shared with
        | Some (in_out, in_store) =>
            let target := (in_store ++ skipn (List.length in_out) segs)%list in
            if negb kept || same_path found target
            then Lodash.baseSet target v store
            else OutOfModel
        | None => Ret store
        end in
      snapshot r paths'
        (filter (fun root => negb (prefix segs (fst root))) shared
           ++ (if kept then [(segs, found)] else []))
        out' store'
  end.

(** A call of [toJSON]: what it returns and what it leaves stored. *)
Definition toJSON_run (r : Resource) : Outcome (Props * Props) :=
  snapshot r (Js.keys (r_casts r)) [] [] (r_attributes r).

Definition toJSON (r : Resource) : Outcome Props :=
  let* os := toJSON_run r in Ret (fst os).

(** [$attributes] after a call of [toJSON]. *)
Definition toJSON_store (r : Resource) : Outcome Props :=
  let* os := toJSON_run r in Ret (snd os).

Definition _statusReset : Method :=
  fun r => (with_status (MkStatus false false false false) r, Ret tt).

(** An assignment [this.x = e] where evaluating [e] may throw. *)
Definition assigning {A} (e : Resource -> Outcome A) (store : A -> Resource -> Resource)
  : Method :=
  fun r =>
    match e r with
    | Ret a => (store a r, Ret tt)
    | Throw x => (r, Throw x)
    | OutOfModel => (r, OutOfModel)
    end.

Definition reset : Method := assigning toJSON with_attributes.

Definition fillable (path : string) : Method :=
  fun r => (with_fillable (r_fillable r ++ [path]) r, Ret tt).

Definition cast (path : string) (type : CastType) : Method :=
  andThen
    (fun r => (with_casts (Js.assign path type (r_casts r)) r, Ret tt))
    (fillable path).

Definition includes (path : string) (l : list string) : bool :=
  existsb (fun p => (p =? path)%string) l.

Definition set (path : string) (value : Value) : Method :=
  fun r =>
    if negb (includes path (r_fillable r)) then (r, Ret tt)
    else
      assigning
        (fun r =>
           let* config := config_of (r_api r) in
           let* cast := getCastValue config path (r_casts r) value in
           Lodash.set (r_attributes r) path cast)
        with_attributes r.

Definition fill (attributes : Value) : Method :=
  fun r =>
    forEach (r_fillable r)
      (fun path r =>
         let value := Lodash.get attributes path VNull in
         if negb (Js.truthy value) then (r, Ret tt) else set path value r)
      r.

Definition define (casts : list (string * CastType)) : Method :=
  andThen
    (forEach (Js.keys casts)
       (fun path r =>
          match Js.lookup path casts with
          | Some type => cast path type r
          | None => (r, Ret tt)
          end))
    (assigning toJSON with_attributes).

(** Modelled from the spec: [this.$api.abort()] on a transport that exposes
    an [abort] operation cancels the outstanding call and leaves the
    Resource alone.  [OgApi] as it is under [src/] has no such method, and
    neither has a config store: the call throws on them. *)
Definition api_abort : Method :=
  fun r =>
    match r_api r with
    | CApi _ _ true => (r, Ret tt)
    | _ => (r, Throw TypeError)
    end.

Definition response_clear : Method :=
  fun r =>
    match OgResponse.clear (r_response r) with
    | Ret x => (with_response x r, Ret tt)
    | Throw e => (r, Throw e)
    | OutOfModel => (r, OutOfModel)
    end.

Definition abort : Method :=
  andThen api_abort (andThen _statusReset (andThen response_clear reset)).

Definition set_creating (b : bool) : Method :=
  fun r =>
    let s := r_status r in
    (with_status (MkStatus (updating s) (fetching s) b (deleting s)) r, Ret tt).

(** [new Error(message)]: an absent message is the empty string. *)
Definition new_Error (message : Value) : Outcome Exn :=
  match message with
  | VUndefined => Ret (Error "")
  | _ => let* s := Js.toString message in Ret (Error s)
  end.

Definition throwing (e : Outcome Exn) : Method :=
  fun r =>
    match e with
    | Ret x => (r, Throw x)
    | Throw x => (r, Throw x)
    | OutOfModel => (r, OutOfModel)
    end.

(** [this.$response = await this.$api.post(this.$path, this.toJSON())]: the
    callee is an [OgApi]; the argument is evaluated before the call, and
    the call goes on with [$attributes] as [toJSON] left them. *)
Definition save_post (st : OgApi.State) (fetched : Outcome OgApi.FetchResponse)
    (r : Resource) : (Resource * OgApi.State) * Outcome unit :=
  match r_api r with
  | CApi _ _ _ =>
      match toJSON_run r with
      | Ret (_, store) =>
          let r := with_attributes store r in
          match OgApi.post st fetched with
          | (st', Ret payload) => (with_response (RPlain payload) r, st', Ret tt)
          | (st', Throw e) => (r, st', Throw e)
          | (st', OutOfModel) => (r, st', OutOfModel)
          end
      | Throw e => (r, st, Throw e)
      | OutOfModel => (r, st, OutOfModel)
      end
  | _ => (r, st, Throw TypeError)
  end.

(** What follows the awaited call in [save]. *)
Definition save_reduce : Method :=
  fun r =>
    match OgResponse.failed (r_response r) with
    | Ret f =>
        if Js.truthy f then
          andThen _statusReset
            (fun r => throwing (let* m := OgResponse.message (r_response r) in new_Error m) r) r
        else
          match r_response r with
          | RPlain v => andThen (fill (Js.prop v "data")) (set_creating false) r
          | RWrapper _ _ => (r, OutOfModel)
          end
    | Throw e => (r, Throw e)
    | OutOfModel => (r, OutOfModel)
    end.

Definition save (st : OgApi.State) (fetched : Outcome OgApi.FetchResponse)
    (r : Resource) : (Resource * OgApi.State) * Outcome unit :=
  match andThen api_abort (andThen _statusReset
          (andThen response_clear (set_creating true))) r with
  | (r1, Ret _) =>
      match save_post st fetched r1 with
      | (r2, st', Ret _) => let '(r3, o) := save_reduce r2 in (r3, st', o)
      | other => other
      end
  | (r1, Throw e) => (r1, st, Throw e)
  | (r1, OutOfModel) => (r1, st, OutOfModel)
  end.

(** [constructor(api, attributes = {}, path = '')].  [super(api.config)]
    reads [api.config]; the superclass, [OgQueryBuilder], is not under
    [src/] and is taken to set nothing that the Resource reads. *)
Definition constructor (api : Collab) (attributes : Value) (path : string)
  : Outcome Resource :=
  let attributes := match attributes with VUndefined => VObj [] | _ => attributes end in
  let* config := config_of api in
  let this :=
    MkResource api (OgResponse.create config) [] [] [] "id"
      (MkStatus false false false false)
      (if (path =? "")%string then "/" else path) in
  match fill attributes this with
  | (this', Ret _) => Ret this'
  | (_, Throw e) => Throw e
  | (_, OutOfModel) => OutOfModel
  end.

(** Modelled from the spec: the subclasses of [OgResource] are not under
    [src/].  A Resource subtype fixes its shape at construction: its
    constructor calls [super(api, attributes, cpath)], declares its casts
    with [define], and, for a class with [cfill], fills the instance from
    the attributes it was given. *)
Definition new_class (type : ResClass) (api : Collab) (attributes : Value)
  : Outcome Resource :=
  match type with
  | MkClass cpath cdefs cfill =>
      let* this := constructor api attributes cpath in
      match define cdefs this with
      | (this1, Ret _) =>
          if cfill then
            match fill attributes this1 with
            | (this2, Ret _) => Ret this2
            | (_, Throw e) => Throw e
            | (_, OutOfModel) => OutOfModel
            end
          else Ret this1
      | (_, Throw e) => Throw e
      | (_, OutOfModel) => OutOfModel
      end
  end.

End Methods.
End Body.

(** ** Nesting of the declared classes *)

Fixpoint type_depth (t : CastType) : nat :=
  match t with
  | TName _ => 0
  | TClass (MkClass _ cdefs _) =>
      S ((fix go (l : list (string * CastType)) : nat :=
            match l with
            | [] => 0
            | (_, t') :: l' => Nat.max (type_depth t') (go l')
            end) cdefs)
  end%nat.

Fixpoint casts_depth (l : list (string * CastType)) : nat :=
  match l with
  | [] => 0
  | (_, t) :: l' => Nat.max (type_depth t) (casts_depth l')
  end%nat.

(** The classes reachable through [n] levels of nested casts.  A method of
    an instance whose casts nest [n] deep runs over [level n]; below the
    last level no class is left to instantiate. *)
Fixpoint level (n : nat) : Lower :=
  match n with
  | O => MkLower (fun _ _ _ => OutOfModel) (fun _ => OutOfModel)
  | S n' => MkLower (Body.new_class (level n')) (Body.SCHEMA (level n'))
  end.

(** ** [OgResource]: the methods of an instance *)
Module OgResource.

Definition classes (r : Resource) : Lower := level (casts_depth (r_casts r)).

Definition getCastValue (config : Collab) (key : string)
    (casts : list (string * CastType)) (value : Value) : Outcome Value :=
  Body.getCastValue (level (casts_depth casts)) config key casts value.

Definition constructor (api : Collab) (attributes : Value) (path : string)
  : Outcome Resource :=
  Body.constructor (level 0) api attributes path.

(** [new type(api, attributes)] for a class [type] that extends [OgResource]. *)
Definition new (type : ResClass) (api : Collab) (attributes : Value) : Outcome Resource :=
  Body.new_class (level (Nat.pred (type_depth (TClass type)))) type api attributes.

Definition SCHEMA (r : Resource) : Outcome Props := Body.SCHEMA (classes r) r.

Definition get (r : Resource) (path : string) (defaultValue : Value) : Outcome Value :=
  Body.get (classes r) r path defaultValue.

Definition filled (r : Resource) (path : string) : bool := Body.filled r path.

Definition toJSON (r : Resource) : Outcome Props := Body.toJSON (classes r) r.

Definition toJSON_store (r : Resource) : Outcome Props := Body.toJSON_store (classes r) r.

Definition _statusReset : Method := Body._statusReset.

Definition reset : Method := fun r => Body.reset (classes r) r.

Definition fillable (path : string) : Method := Body.fillable path.

Definition cast (path : string) (type : CastType) : Method := Body.cast path type.

Definition set (path : string) (value : Value) : Method :=
  fun r => Body.set (classes r) path value r.

Definition fill (attributes : Value) : Method :=
  fun r => Body.fill (classes r) attributes r.

Definition define (casts : list (string * CastType)) : Method :=
  fun r =>
    Body.define (level (Nat.max (casts_depth (r_casts r)) (casts_depth casts))) casts r.

Definition abort : Method := fun r => Body.abort (classes r) r.

Definition save (st : OgApi.State) (fetched : Outcome OgApi.FetchResponse)
    (r : Resource) : (Resource * OgApi.State) * Outcome unit :=
  Body.save (classes r) st fetched r.

End OgResource.

(** ** [OgResource]: the getters *)
Module Getters.

Definition IS_CREATING (r : Resource) : bool := creating (r_status r).
Definition IS_UPDATING (r : Resource) : bool := updating (r_status r).
Definition IS_FETCHING (r : Resource) : bool := fetching (r_status r).
Definition IS_DELETING (r : Resource) : bool := deleting (r_status r).

(** [this.$status.creating || this.$status.updating || false]. *)
Definition IS_SAVING (r : Resource) : bool :=
  creating (r_status r) || updating (r_status r) || false.

Definition ATTRIBUTES (r : Resource) : Props := r_attributes r.

Definition FAILED (r : Resource) : Outcome Value := OgResponse.failed (r_response r).

Definition FAILED_MESSAGE (r : Resource) : Outcome Value :=
  OgResponse.message (r_response r).

(** [this.$response.status].  Modelled from the spec: the wrapper derives
    its status from the last transport result; what it answers before any
    result is not said and is left out. *)
Definition FAILED_CODE (r : Resource) : Outcome Value :=
  match r_response r with
  | RWrapper _ None => OutOfModel
  | RWrapper _ (Some res) => Ret (VNum (NInt (status res)))
  | RPlain v => if Lodash.nullish v then Throw TypeError else Ret (Js.prop v "status")
  end.

(** [x === n] for a number [n]. *)
Definition strict_equals_number (x : Value) (n : Z) : bool :=
  match x with
  | VNum (NInt z) => z =? n
  | _ => false
  end.

(** [this.$response.status === OgResponse.HTTP_TOKEN_MISMATCH], the
    constant of the missing class being a number given as a parameter. *)
Definition FAILED_BY_SESSION_EXPIRE (HTTP_TOKEN_MISMATCH : Z) (r : Resource)
  : Outcome bool :=
  let* code := FAILED_CODE r in Ret (strict_equals_number code HTTP_TOKEN_MISMATCH).

End Getters.

(** ** [OgApi]: headers, urls and the call handed to [fetch] *)
Module OgApiClient.

(** Modelled from the spec: the config store, [OgConfig], is not under
    [src/]; it answers [get(key, default)].  An [OgApi] instance is given
    with what its config answers for the two keys [request] and [url] read,
    [get('API_URL')] and [get('API_HEADERS', {})]. *)
Record Instance : Type := MkInstance
  { API_URL : Value; API_HEADERS : Value;
    headers_ : Props;              (* [$headers] *)
    response_ : OgApi.State }.     (* [$response] *)

(** The instance the constructor builds over a config. *)
Definition create (api_url api_headers : Value) : Instance :=
  MkInstance api_url api_headers [] OgApi.initial.

Definition header (key : string) (value : Value) (this : Instance) : Instance :=
  MkInstance (API_URL this) (API_HEADERS this)
    (Js.assign key value (headers_ this)) (response_ this).

Definition acceptJson : Instance -> Instance :=
  header "Accept" (VStr "application/json").

Definition contentTypeJson : Instance -> Instance :=
  header "Content-Type" (VStr "application/json").

Definition xMLHttpRequest : Instance -> Instance :=
  header "X-Requested-With" (VStr "XMLHttpRequest").

(** [this.header('Authorization', `Bearer ${bearerToken}`)]. *)
Definition token (bearerToken : Value) (this : Instance) : Outcome Instance :=
  let* t := Js.toString bearerToken in
  Ret (header "Authorization" (VStr ("Bearer " ++ t)) this).

(** [s.replace(/\/$/g, '')]: one slash removed at the end. *)
Fixpoint strip_trailing_slash (s : string) : string :=
  match s with
  | EmptyString => EmptyString
  | String c EmptyString => if (Js.code c =? 47) then EmptyString else s
  | String c s' => String c (strip_trailing_slash s')
  end.

(** [s.replace(/^\//g, '')]: one slash removed at the start. *)
Definition strip_leading_slash (s : string) : string :=
  match s with
  | String c s' => if (Js.code c =? 47) then s' else s
  | EmptyString => EmptyString
  end.

(** [url(path = '')]. *)
Definition url (this : Instance) (path : Value) : Outcome string :=
  let path := match path with VUndefined => VStr "" | _ => path end in
  let* base := Js.toString (API_URL this) in
  let* p := Js.toString path in
  Ret (strip_trailing_slash base ++ "/" ++ strip_leading_slash p).

(** [{...a, ...b}] on own properties: the properties of [a], overwritten
    and followed by those of [b]. *)
Fixpoint merge (a b : Props) : Props :=
  match b with
  | [] => a
  | (k, v) :: b' => merge (Js.assign k v a) b'
  end.

(** The own enumerable properties that an object spread copies: those of a
    plain object, none for [undefined], [null], a boolean or a number. *)
Definition spread (v : Value) : Outcome Props :=
  match v with
  | VObj props => Ret props
  | VUndefined | VNull | VBool _ | VNum _ => Ret []
  | VStr EmptyString => Ret []
  | VStr _ | VRes _ => OutOfModel
  end.

(** The arguments of [fetch]: the url and the init object.  [body] is the
    value handed to [JSON.stringify], or nothing for [undefined]; the
    serializer itself is not modelled. *)
Record Call : Type := MkCall
  { call_url : string; call_method : string; call_headers : Props;
    call_body : option Value }.

Definition bodiless (method : string) : bool :=
  (method =? "GET")%string || (method =? "HEAD")%string.

(** What [request(path, data = {}, method = 'GET', headers = {})] hands to
    [fetch]. *)
Definition call (this : Instance) (path data : Value) (method : string)
    (headers : Value) : Outcome Call :=
  let data := match data with VUndefined => VObj [] | _ => data end in
  let headers := match headers with VUndefined => VObj [] | _ => headers end in
  let* u := url this path in
  let* defaults := spread (API_HEADERS this) in
  let* extra := spread headers in
  Ret (MkCall u method (merge defaults extra)
         (if bodiless method then None else Some data)).

(** [request], the network being a function from the call to what [fetch]
    resolves or rejects with. *)
Definition request (fetch : Call -> Outcome OgApi.FetchResponse) (this : Instance)
    (path data : Value) (method : string) (headers : Value)
  : Instance * Outcome unit :=
  match call this path data method headers with
  | Ret c =>
      let '(st, done) := OgApi.request (response_ this) (fetch c) in
      (MkInstance (API_URL this) (API_HEADERS this) (headers_ this) st, done)
  | Throw e => (this, Throw e)
  | OutOfModel => (this, OutOfModel)
  end.

Definition post (fetch : Call -> Outcome OgApi.FetchResponse) (this : Instance)
    (path data : Value) : Instance * Outcome Value :=
  let '(this', done) := request fetch this path data "POST" VUndefined in
  (this', let* _ := done in
          Ret (match response_ this' with MkApiResponse _ _ _ d => d end)).

Definition get (fetch : Call -> Outcome OgApi.FetchResponse) (this : Instance)
    (path query : Value) : Instance * Outcome Value :=
  let '(this', done) := request fetch this path query "GET" VUndefined in
  (this', let* _ := done in Ret (data (response_ this'))).

End OgApiClient.

(** * Definitions for the properties *)

(** ** Reading an instance, and instances to state the properties on *)

(** The value stored at a path, [undefined] when there is none. *)
Definition stored (r : Resource) (path : string) : Value :=
  Lodash.get (VObj (r_attributes r)) path VUndefined.

(** The instance the constructor returns for an [api] whose [config]
    property is [config]. *)
Definition constructed (api : Collab) (config : Collab) (path : string) : Resource :=
  MkResource api (RWrapper config None) [] [] [] "id"
    (MkStatus false false false false) path.

(** A transport with an [abort] operation, over a config store that has no
    [config] of its own. *)
Definition transport : Collab := CApi 1 (CConfig 2 CUndefined) true.

(** The instance a method leaves. *)
Definition after (m : Method) (r : Resource) : Resource := fst (m r).

(** An instance holding [5] at the integer path [a]. *)
Definition counter_resource : Resource :=
  MkResource (CApi 1 (CConfig 2 CUndefined) true) (RWrapper (CConfig 2 CUndefined) None)
    ["a"] [("a", TName "integer")] [("a", VNum (NInt 5))] "id"
    (MkStatus false false false false) "counters".

(** An instance holding [0] and [false]. *)
Definition zero_resource : Resource :=
  MkResource (CApi 1 (CConfig 2 CUndefined) true) (RWrapper (CConfig 2 CUndefined) None)
    ["a"; "b"] [("a", TName "integer"); ("b", TName "boolean")]
    [("a", VNum (NInt 0)); ("b", VBool false)] "id"
    (MkStatus false false false false) "counters".

(** The instance of the scenario: [cast('name', 'string')],
    [cast('age', 'integer')], then [fill({name: 'Ana', age: '7x'})]. *)
Definition ana : Resource :=
  after (OgResource.fill (VObj [("name", VStr "Ana"); ("age", VStr "7x")]))
    (after (OgResource.cast "age" (TName "integer"))
       (after (OgResource.cast "name" (TName "string"))
          (constructed transport (CConfig 2 CUndefined) "people"))).

(** The transport outcome [{ok: false, status: 419, message: 'Expired'}]. *)
Definition expired : Outcome OgApi.FetchResponse :=
  Ret (OgApi.MkFetchResponse false 419 "Expired" (Ret VNull)).

(** An instance with a cast path that extends another: [cast('a',
    'object')], [cast('a.b', 'integer')], then [fill({a: {c: 1}})]. *)
Definition annex : Resource :=
  after (OgResource.fill (VObj [("a", VObj [("c", VNum (NInt 1))])]))
    (after (OgResource.cast "a.b" (TName "integer"))
       (after (OgResource.cast "a" (TName "object"))
          (constructed transport (CConfig 2 CUndefined) "annexes"))).

(** The same instance over an [OgApi] as it is under [src/], which has no
    [abort] method. *)
Definition ana_plain : Resource :=
  match ana with
  | MkResource _ x f c a k s p =>
      MkResource (CApi 1 (CConfig 2 CUndefined) false) x f c a k s p
  end.

(** [class AddressResource extends OgResource] declaring [city] as a
    string in its constructor, and a subclass with no constructor of its
    own. *)
Definition AddressResource : ResClass :=
  MkClass "addresses" [("city", TName "string")] false.

Definition BareResource : ResClass := MkClass "" [] false.

Definition lima : Value := VObj [("city", VStr "Lima")].

(** The child the cast makes of [{city: 'Lima'}]. *)
Definition lima_child : Resource :=
  MkResource (CConfig 2 CUndefined) (RWrapper CUndefined None) ["city"]
    [("city", TName "string")] [("city", VStr "")] "id"
    (MkStatus false false false false) "addresses".

(** A household whose [address], cast as [AddressResource], was set to
    [{city: 'Lima'}]. *)
Definition household : Resource :=
  after (OgResource.set "address" lima)
    (after (OgResource.cast "address" (TClass AddressResource))
       (constructed transport (CConfig 2 CUndefined) "households")).

(** The household of the scenario before anything is stored:
    [cast('address', AddressResource)], where [AddressResource] casts
    [city] as a string. *)
Definition empty_household : Resource :=
  after (OgResource.cast "address" (TClass AddressResource))
    (constructed transport (CConfig 2 CUndefined) "households").

(** A class nested inside a nested class. *)
Definition CityResource : ResClass := MkClass "cities" [("name", TName "string")] false.

Definition StreetResource : ResClass :=
  MkClass "streets" [("city", TClass CityResource)] false.

(** An instance with a fillable path that has no cast. *)
Definition nick : Resource :=
  after (OgResource.set "nick" (VStr "x"))
    (after (OgResource.fillable "nick")
       (constructed transport (CConfig 2 CUndefined) "people")).

(** An instance with a cast path that extends another one. *)
Definition overlap : Resource :=
  after (OgResource.cast "a" (TName "string"))
    (after (OgResource.cast "a.b" (TName "string"))
       (constructed transport (CConfig 2 CUndefined) "people")).

(** An instance with a cast on a split path. *)
Definition tenant : Resource :=
  after (OgResource.fill (VObj [("name", VStr "Ana")]))
    (after (OgResource.cast "name" (TName "string"))
       (after (OgResource.cast "address.city" (TName "string"))
          (constructed transport (CConfig 2 CUndefined) "tenants"))).

(** An instance with a nested cast on a split path. *)
Definition lodger : Resource :=
  after (OgResource.cast "home.address" (TClass AddressResource))
    (after (OgResource.cast "home.floor" (TName "integer"))
       (constructed transport (CConfig 2 CUndefined) "lodgers")).

(** ** Reachable states *)

Inductive Op : Type :=
| OpDefine (casts : list (string * CastType))
| OpCast (path : string) (type : CastType)
| OpFillable (path : string)
| OpFill (attributes : Value)
| OpSet (path : string) (value : Value)
| OpSave (st : OgApi.State) (fetched : Outcome OgApi.FetchResponse)
| OpAbort
| OpReset.

(** The instance an operation leaves, whether it returned or threw. *)
Definition run (op : Op) (r : Resource) : Resource :=
  match op with
  | OpDefine casts => fst (OgResource.define casts r)
  | OpCast path type => fst (OgResource.cast path type r)
  | OpFillable path => fst (OgResource.fillable path r)
  | OpFill attributes => fst (OgResource.fill attributes r)
  | OpSet path value => fst (OgResource.set path value r)
  | OpSave st fetched => fst (fst (OgResource.save st fetched r))
  | OpAbort => fst (OgResource.abort r)
  | OpReset => fst (OgResource.reset r)
  end.

Inductive reachable : Resource -> Prop :=
| reach_constructor api attributes path r :
    OgResource.constructor api attributes path = Ret r -> reachable r
| reach_new type api attributes r :
    OgResource.new type api attributes = Ret r -> reachable r
| reach_run op r : reachable r -> reachable (run op r).

(** The invariant: every path that has a cast is fillable. *)
Definition cast_implies_fillable (r : Resource) : Prop :=
  forall path, In path (Js.keys (r_casts r)) -> In path (r_fillable r).

(** A method that touches neither [$casts] nor [$fillable]. *)
Definition keeps_shape (m : Method) : Prop :=
  forall r, r_casts (fst (m r)) = r_casts r /\ r_fillable (fst (m r)) = r_fillable r.

(** A method that leaves [$api] alone. *)
Definition keeps_api (m : Method) : Prop := forall r, r_api (fst (m r)) = r_api r.

(** A method that keeps a property of the instance, however it ends. *)
Definition preserves (P : Resource -> Prop) (m : Method) : Prop :=
  forall r, P r -> P (fst (m r)).

(** ** The zero shape of the declared casts *)

(** The zero value of a declared type, in the spec's words: [false], the
    empty string, [0] and [0.0] for the four primitive types, the [null]
    that passes through for any other name, and for a nested Resource type
    the schema of that type, made of the zero values of its own casts. *)
Definition zero_of_name (name : string) : Value :=
  if (name =? "boolean")%string then VBool false
  else if (name =? "string")%string then VStr ""
  else if (name =? "integer")%string then VNum (NInt 0)
  else if (name =? "decimal")%string then VNum (NInt 0)
  else VNull.

Fixpoint zero_value (t : CastType) : Value :=
  match t with
  | TName name => zero_of_name name
  | TClass (MkClass _ cdefs _) =>
      VObj (map (fun kt => (fst kt, zero_value (snd kt))) cdefs)
  end.

Definition schema_of (casts : list (string * CastType)) : Props :=
  map (fun kt => (fst kt, zero_value (snd kt))) casts.

(** Cast paths that are single segments, each declared once, here and in
    the nested classes. *)
Fixpoint plain_paths {A} (l : list (string * A)) : Prop :=
  match l with
  | [] => True
  | (k, _) :: l' => Lodash.has_dot k = false /\ Js.lookup k l' = None /\ plain_paths l'
  end.

Fixpoint plain_type (t : CastType) : Prop :=
  match t with
  | TName _ => True
  | TClass (MkClass _ cdefs _) =>
      plain_paths cdefs /\
      (fix all (l : list (string * CastType)) : Prop :=
         match l with
         | [] => True
         | (_, t') :: l' => plain_type t' /\ all l'
         end) cdefs
  end.

Fixpoint plain_types (l : list (string * CastType)) : Prop :=
  match l with
  | [] => True
  | (_, t) :: l' => plain_type t /\ plain_types l'
  end.

Definition plain_casts (l : list (string * CastType)) : Prop :=
  plain_paths l /\ plain_types l.

(** How many times [.config] can be read along the chain that starts at a
    collaborator. *)
Fixpoint collab_depth (c : Collab) : nat :=
  match c with
  | CUndefined => O
  | CConfig _ cfg => S (collab_depth cfg)
  | CApi _ cfg _ => S (collab_depth cfg)
  end.

(** What one level of classes has to provide for the schema of the level
    above: instances of the declared classes, and their schemas. *)
Definition provides (lo : Lower) (d : nat) : Prop :=
  (forall cpath cdefs cfill config,
     plain_casts cdefs -> (casts_depth cdefs < d)%nat ->
     (casts_depth cdefs < collab_depth config)%nat ->
     exists child,
       new_ lo (MkClass cpath cdefs cfill) config VNull = Ret child /\
       r_casts child = cdefs /\ r_api child = config) /\
  (forall r,
     plain_casts (r_casts r) -> (casts_depth (r_casts r) < d)%nat ->
     (casts_depth (r_casts r) < collab_depth (r_api r))%nat ->
     schema_ lo r = Ret (schema_of (r_casts r))).

(** What [SCHEMA] writes at a cast path: the zero value of a primitive
    type, and for a nested Resource type the schema of the child that the
    casting engine creates for [null]. *)
Definition schema_value (lo : Lower) (r : Resource) (path : string) : Outcome Value :=
  match Js.lookup path (r_casts r) with
  | Some (TName name) => Ret (zero_of_name name)
  | Some (TClass type) =>
      let* config := config_of (r_api r) in
      let* child := new_ lo type config VNull in
      let* inner := schema_ lo child in
      Ret (VObj inner)
  | None => Ret VNull
  end.

(** ** Paths that part from one another *)

(** Two segment lists that part at some segment: neither is a prefix of
    the other. *)
Fixpoint unrelated (s1 s2 : list string) : bool :=
  match s1, s2 with
  | a :: r1, b :: r2 => if (a =? b)%string then unrelated r1 r2 else true
  | _, _ => false
  end.

(** Cast paths none of which extends another by further segments. *)
Fixpoint separate {A} (l : list (string * A)) : Prop :=
  match l with
  | [] => True
  | (k, _) :: l' =>
      Forall (fun kt => unrelated (Lodash.stringToPath k)
                          (Lodash.stringToPath (fst kt)) = true) l' /\
      separate l'
  end.

(** An object none of whose keys has a dot: what [toJSON] and [SCHEMA]
    build. *)
Definition dotfree_keys (props : Props) : Prop :=
  Forall (fun k => Lodash.has_dot k = false) (Js.keys props).

(** [baseSet] at a segment that is not the last: the object below it when
    there is one, a new object otherwise. *)
Definition below (nested : Props) (key next : string) : Outcome Props :=
  match Js.prop (VObj nested) key with
  | VObj inner => Ret inner
  | VRes _ => OutOfModel
  | _ => if Lodash.isIndex next then OutOfModel else Ret []
  end.

(** ** The transport: slashes, headers, builders *)

Definition starts_with_slash (s : string) : bool :=
  match s with
  | String c _ => Js.code c =? 47
  | EmptyString => false
  end.

Fixpoint ends_with_slash (s : string) : bool :=
  match s with
  | EmptyString => false
  | String c EmptyString => Js.code c =? 47
  | String _ s' => ends_with_slash s'
  end.

(** An object given with each of its keys once. *)
Fixpoint distinct_keys {A} (l : list (string * A)) : Prop :=
  match l with
  | [] => True
  | (k, _) :: l' => Js.lookup k l' = None /\ distinct_keys l'
  end.

(** The calls that set headers on an [OgApi] instance. *)
Inductive Builder : Type :=
| BHeader (key : string) (value : Value)
| BAcceptJson
| BContentTypeJson
| BXMLHttpRequest
| BToken (bearerToken : Value).

Definition configure (b : Builder) (this : OgApiClient.Instance)
  : Outcome OgApiClient.Instance :=
  match b with
  | BHeader key value => Ret (OgApiClient.header key value this)
  | BAcceptJson => Ret (OgApiClient.acceptJson this)
  | BContentTypeJson => Ret (OgApiClient.contentTypeJson this)
  | BXMLHttpRequest => Ret (OgApiClient.xMLHttpRequest this)
  | BToken t => OgApiClient.token t this
  end.

Fixpoint configure_all (bs : list Builder) (this : OgApiClient.Instance)
  : Outcome OgApiClient.Instance :=
  match bs with
  | [] => Ret this
  | b :: bs' => let* this' := configure b this in configure_all bs' this'
  end.

(** ** The states of [save] *)

(** The instance as [save] has it when the request is issued: the flags
    reset and [creating] raised, the wrapper cleared. *)
Definition armed (config : Collab) (r : Resource) : Resource :=
  with_status (MkStatus false false true false)
    (with_response (RWrapper config None) r).

(** The instance once the payload is in [$response]. *)
Definition received (config : Collab) (payload : Value) (r : Resource) : Resource :=
  with_response (RPlain payload) (armed config r).

(** All four flags lowered. *)
Definition idle (r : Resource) : Resource :=
  with_status (MkStatus false false false false) r.

(** A method that writes no field of the instance but [$attributes]. *)
Definition only_attributes (m : Method) : Prop :=
  forall r, fst (m r) = with_attributes (r_attributes (fst (m r))) r.

(** A method that only ever adds to the declarations: [$fillable] grows at
    its end and no key leaves [$casts]. *)
Definition grows (m : Method) : Prop :=
  forall r,
    (exists more, r_fillable (fst (m r)) = (r_fillable r ++ more)%list) /\
    (forall path, In path (Js.keys (r_casts r)) -> In path (Js.keys (r_casts (fst (m r))))).

(** A path declared with a type: it has that cast and it is fillable. *)
Definition declared (path : string) (type : CastType) (r : Resource) : Prop :=
  Js.lookup path (r_casts r) = Some type /\ In path (r_fillable r).

(** * Properties *)

(** ** Own properties and paths *)

Lemma lookup_assign_same {A} (key : string) (v : A) (l : list (string * A)) :
  Js.lookup key (Js.assign key v l) = Some v.
Proof.
  induction l as [|[k x] l IH]; simpl.
  - now rewrite String.eqb_refl.
  - destruct (k =? key)%string eqn:E; simpl; rewrite E; auto.
Qed.

Lemma lookup_assign_other {A} (key key' : string) (v : A) (l : list (string * A)) :
  key <> key' -> Js.lookup key' (Js.assign key v l) = Js.lookup key' l.
Proof.
  intros N. induction l as [|[k x] l IH]; simpl.
  - destruct (key =? key')%string eqn:E; auto. apply String.eqb_eq in E. contradiction.
  - destruct (k =? key)%string eqn:E; simpl.
    + apply String.eqb_eq in E. subst k.
      destruct (key =? key')%string eqn:E'; auto.
      apply String.eqb_eq in E'. contradiction.
    + destruct (k =? key')%string; auto.
Qed.

Lemma assign_fresh {A} (key : string) (v : A) (l : list (string * A)) :
  Js.lookup key l = None -> Js.assign key v l = (l ++ [(key, v)])%list.
Proof.
  induction l as [|[k x] l IH]; simpl; auto.
  destruct (k =? key)%string; [discriminate|]. intros H. now rewrite IH.
Qed.

Lemma assign_assign {A} (key : string) (v w : A) (l : list (string * A)) :
  Js.assign key w (Js.assign key v l) = Js.assign key w l.
Proof.
  induction l as [|[k x] l IH]; simpl.
  - now rewrite String.eqb_refl.
  - destruct (k =? key)%string eqn:E; simpl; rewrite E; [reflexivity | now rewrite IH].
Qed.

Lemma lookup_app_fresh {A} (key key' : string) (v : A) (l : list (string * A)) :
  Js.lookup key' l = None -> key <> key' -> Js.lookup key' (l ++ [(key, v)])%list = None.
Proof.
  intros L N. induction l as [|[k x] l IH]; simpl in *.
  - destruct (key =? key')%string eqn:E; auto. apply String.eqb_eq in E. contradiction.
  - destruct (k =? key')%string; [discriminate | auto].
Qed.

Lemma lookup_keys {A} (key : string) (v : A) (l : list (string * A)) :
  Js.lookup key l = Some v -> In key (Js.keys l).
Proof.
  induction l as [|[k x] l IH]; simpl; [discriminate|].
  destruct (k =? key)%string eqn:E; auto.
  intros _. left. now apply String.eqb_eq.
Qed.


Lemma lookup_none_neq {A} (key key' : string) (v : A) (l : list (string * A)) :
  Js.lookup key l = None -> In (key', v) l -> key <> key'.
Proof.
  induction l as [|[k x] l IH]; simpl; [tauto|].
  destruct (k =? key)%string eqn:E; [discriminate|].
  intros L [H|H]; [|now apply IH].
  injection H as -> ->. intros ->. now rewrite String.eqb_refl in E.
Qed.

Lemma keys_assign {A} (key : string) (v : A) (l : list (string * A)) (q : string) :
  In q (Js.keys (Js.assign key v l)) -> q = key \/ In q (Js.keys l).
Proof.
  induction l as [|[k x] l IH]; simpl.
  - intros [<-|[]]. now left.
  - destruct (k =? key)%string eqn:E; simpl; intros [<-|H]; auto.
    destruct (IH H); auto.
Qed.

Lemma castPath_plain (path : string) (object : Value) :
  Lodash.has_dot path = false -> Lodash.castPath path object = [path].
Proof. unfold Lodash.castPath. now intros ->. Qed.

Lemma stringToPath_nonempty (s : string) : Lodash.stringToPath s <> [].
Proof.
  destruct s as [|c s]; simpl; [discriminate|].
  destruct (Lodash.is_dot c); [discriminate|].
  destruct (Lodash.stringToPath s); discriminate.
Qed.

Lemma castPath_nonempty (path : string) (object : Value) :
  Lodash.castPath path object <> [].
Proof.
  unfold Lodash.castPath. destruct (Lodash.has_dot path); [|discriminate].
  destruct object; try apply stringToPath_nonempty.
  destruct (Js.lookup path props); [discriminate | apply stringToPath_nonempty].
Qed.

Lemma stringToPath_plain (path : string) :
  Lodash.has_dot path = false -> Lodash.stringToPath path = [path].
Proof.
  induction path as [|c path IH]; simpl; auto.
  destruct (Lodash.is_dot c); simpl; [discriminate|].
  intros H. now rewrite IH.
Qed.

Lemma stringToPath_segments (path seg : string) :
  In seg (Lodash.stringToPath path) -> Lodash.has_dot seg = false.
Proof.
  revert seg. induction path as [|c path IH]; simpl; intros seg.
  - intros [<-|[]]. reflexivity.
  - destruct (Lodash.is_dot c) eqn:D.
    + intros [<-|H]; [reflexivity | auto].
    + destruct (Lodash.stringToPath path) as [|h t] eqn:E.
      * intros [<-|[]]. simpl. now rewrite D.
      * intros [<-|H]; [|apply IH; now right].
        simpl. rewrite D. apply IH. now left.
Qed.

Lemma lookup_dotfree (props : Props) (path : string) :
  dotfree_keys props -> Lodash.has_dot path = true -> Js.lookup path props = None.
Proof.
  unfold dotfree_keys. induction props as [|[k x] l IH]; simpl; auto.
  intros F D. inversion F as [|? ? Hk Hl]; subst.
  destruct (k =? path)%string eqn:E; [|auto].
  apply String.eqb_eq in E. subst k. congruence.
Qed.

Lemma castPath_dotfree (props : Props) (path : string) :
  dotfree_keys props ->
  Lodash.castPath path (VObj props) = Lodash.stringToPath path.
Proof.
  intros F. unfold Lodash.castPath. destruct (Lodash.has_dot path) eqn:D.
  - now rewrite (lookup_dotfree props path F D).
  - now rewrite stringToPath_plain.
Qed.

Lemma dotfree_assign (key : string) (x : Value) (props : Props) :
  Lodash.has_dot key = false -> dotfree_keys props -> dotfree_keys (Js.assign key x props).
Proof.
  unfold dotfree_keys. intros D F. apply Forall_forall. intros q I.
  destruct (keys_assign _ _ _ _ I) as [->|H]; [exact D|].
  rewrite Forall_forall in F. auto.
Qed.

(** Reading below a primitive gives [undefined]. *)
Lemma baseGet_primitive (segs : list string) (v : Value) :
  (forall props, v <> VObj props) ->
  Lodash.baseGet segs v = v \/ Lodash.baseGet segs v = VUndefined.
Proof.
  intros P. destruct segs as [|key rest]; simpl; auto.
  right. destruct (Lodash.nullish v); auto.
  assert (E : Js.prop v key = VUndefined).
  { destruct v; simpl; auto. now destruct (P props). }
  rewrite E. destruct rest; simpl; auto.
Qed.

Lemma baseGet_below_primitive (segs : list string) (v : Value) :
  (forall props, v <> VObj props) -> segs <> [] ->
  Lodash.baseGet segs v = VUndefined.
Proof.
  intros P N. destruct segs as [|key rest]; [contradiction|]. simpl.
  destruct (Lodash.nullish v); auto.
  assert (E : Js.prop v key = VUndefined).
  { destruct v; simpl; auto. now destruct (P props). }
  rewrite E. destruct rest; reflexivity.
Qed.

Lemma baseGet_empty_object (segs : list string) :
  segs <> [] -> Lodash.baseGet segs (VObj []) = VUndefined.
Proof. destruct segs as [|k r]; [contradiction | now destruct r]. Qed.

Lemma set_plain (object : Props) (path : string) (value : Value) :
  Lodash.has_dot path = false ->
  Lodash.set object path value = Ret (Js.assign path value object).
Proof. intros H. unfold Lodash.set. now rewrite castPath_plain. Qed.

Lemma get_plain (props : Props) (path : string) (d : Value) :
  Lodash.has_dot path = false ->
  Lodash.get (VObj props) path d =
  match Js.prop (VObj props) path with VUndefined => d | x => x end.
Proof.
  intros H. unfold Lodash.get. rewrite castPath_plain by exact H.
  simpl. destruct (Js.lookup path props) as [[]|]; reflexivity.
Qed.

Lemma get_default_unused (object : Value) (path : string) (d : Value) :
  Lodash.get object path VUndefined <> VUndefined ->
  Lodash.get object path d = Lodash.get object path VUndefined.
Proof.
  unfold Lodash.get.
  destruct (if Lodash.nullish object then VUndefined
            else Lodash.baseGet (Lodash.castPath path object) object);
    auto; congruence.
Qed.

Lemma lodash_get_defined (object : Value) (path : string) (d : Value) :
  d <> VUndefined -> Lodash.get object path d <> VUndefined.
Proof.
  intros D. unfold Lodash.get.
  destruct (if Lodash.nullish object then VUndefined else Lodash.baseGet _ _);
    try discriminate. exact D.
Qed.

Lemma lodash_get_split (props : Props) (path : string) :
  dotfree_keys props ->
  Lodash.baseGet (Lodash.stringToPath path) (VObj props) <> VUndefined ->
  Lodash.get (VObj props) path VUndefined
    = Lodash.baseGet (Lodash.stringToPath path) (VObj props).
Proof.
  intros F D. unfold Lodash.get. rewrite castPath_dotfree by exact F. simpl Lodash.nullish.
  cbv iota. now destruct (Lodash.baseGet _ _).
Qed.

(** ** Reads after writes on split paths *)

Lemma baseSet_step (key next : string) (rest : list string) (v : Value) (nested : Props) :
  Lodash.baseSet (key :: next :: rest) v nested =
  let* inner := below nested key next in
  let* inner' := Lodash.baseSet (next :: rest) v inner in
  Ret (Js.assign key (VObj inner') nested).
Proof.
  unfold below. simpl.
  destruct (match Js.lookup key nested with Some x => x | None => VUndefined end);
    try reflexivity; destruct (Lodash.isIndex next); reflexivity.
Qed.

Lemma baseGet_step (key : string) (rest : list string) (props : Props) :
  Lodash.baseGet (key :: rest) (VObj props) = Lodash.baseGet rest (Js.prop (VObj props) key).
Proof. reflexivity. Qed.

Lemma below_assign (nested inner : Props) (key next : string) :
  below (Js.assign key (VObj inner) nested) key next = Ret inner.
Proof. unfold below, Js.prop. now rewrite lookup_assign_same. Qed.

Lemma below_reads (nested inner : Props) (key next : string) (segs : list string) :
  below nested key next = Ret inner -> segs <> [] ->
  Lodash.baseGet segs (Js.prop (VObj nested) key) = Lodash.baseGet segs (VObj inner).
Proof.
  unfold below.
  destruct (Js.prop (VObj nested) key) eqn:E; intros B N;
    try (destruct (Lodash.isIndex next); [discriminate|]; injection B as <-;
         rewrite baseGet_empty_object by exact N;
         apply baseGet_below_primitive; [discriminate | exact N]).
  - now injection B as <-.
  - discriminate.
Qed.

Lemma baseSet_assigns (key : string) (rest : list string) (v : Value)
    (nested nested' : Props) :
  Lodash.baseSet (key :: rest) v nested = Ret nested' ->
  exists x, nested' = Js.assign key x nested.
Proof.
  destruct rest as [|next rest'].
  - simpl. intros S. injection S as <-. eauto.
  - rewrite baseSet_step.
    destruct (below nested key next) as [inner| |]; cbn [bind]; try discriminate.
    destruct (Lodash.baseSet (next :: rest') v inner); cbn [bind]; try discriminate.
    intros S. injection S as <-. eauto.
Qed.

Lemma get_set_same (segs : list string) (v : Value) (nested nested' : Props) :
  segs <> [] -> Lodash.baseSet segs v nested = Ret nested' ->
  Lodash.baseGet segs (VObj nested') = v.
Proof.
  revert nested nested'. induction segs as [|key rest IH]; [contradiction|].
  intros nested nested' _. destruct rest as [|next rest'].
  - simpl. intros H. injection H as <-. unfold Js.prop. now rewrite lookup_assign_same.
  - rewrite baseSet_step, baseGet_step.
    destruct (below nested key next) as [inner| |]; cbn [bind]; try discriminate.
    destruct (Lodash.baseSet (next :: rest') v inner) as [inner'| |] eqn:B;
      cbn [bind]; try discriminate.
    intros H. injection H as <-. unfold Js.prop. rewrite lookup_assign_same.
    apply (IH inner inner'); [discriminate | exact B].
Qed.

Lemma unrelated_nonempty (s1 s2 : list string) : unrelated s1 s2 = true -> s1 <> [].
Proof. destruct s1; [discriminate | discriminate]. Qed.

Lemma unrelated_irreflexive (segs : list string) : unrelated segs segs = false.
Proof. induction segs as [|a r IH]; simpl; auto. now rewrite String.eqb_refl. Qed.

Lemma get_set_other (s1 s2 : list string) (v : Value) (nested nested' : Props) :
  unrelated s1 s2 = true -> Lodash.baseSet s2 v nested = Ret nested' ->
  Lodash.baseGet s1 (VObj nested') = Lodash.baseGet s1 (VObj nested).
Proof.
  revert s2 nested nested'. induction s1 as [|a r1 IH]; [discriminate|].
  intros [|b r2] nested nested' U; [discriminate|]. simpl in U.
  rewrite !baseGet_step. destruct (String.eqb_spec a b) as [<-|N].
  - destruct r2 as [|next r2']; [destruct r1; discriminate|].
    rewrite baseSet_step.
    destruct (below nested a next) as [inner| |] eqn:B; cbn [bind]; try discriminate.
    destruct (Lodash.baseSet (next :: r2') v inner) as [inner'| |] eqn:S;
      cbn [bind]; try discriminate.
    intros H. injection H as <-. unfold Js.prop at 1. rewrite lookup_assign_same.
    rewrite (IH _ _ _ U S).
    symmetry. apply (below_reads _ _ _ _ _ B). exact (unrelated_nonempty _ _ U).
  - intros S. assert (E : exists x, nested' = Js.assign b x nested).
    { destruct r2 as [|next r2'].
      - simpl in S. injection S as <-. eauto.
      - rewrite baseSet_step in S.
        destruct (below nested b next) as [inner| |]; cbn [bind] in S; try discriminate.
        destruct (Lodash.baseSet (next :: r2') v inner); cbn [bind] in S; try discriminate.
        injection S as <-. eauto. }
    destruct E as [x ->]. unfold Js.prop.
    rewrite lookup_assign_other by (intros E; now subst).
    reflexivity.
Qed.

Lemma set_set_same (segs : list string) (v w : Value) (nested n1 : Props) :
  Lodash.baseSet segs v nested = Ret n1 ->
  Lodash.baseSet segs w n1 = Lodash.baseSet segs w nested.
Proof.
  revert nested n1. induction segs as [|key rest IH]; intros nested n1.
  - simpl. now intros H; injection H as <-.
  - destruct rest as [|next rest'].
    + simpl. intros H. injection H as <-. now rewrite assign_assign.
    + rewrite !baseSet_step.
      destruct (below nested key next) as [inner| |]; cbn [bind]; try discriminate.
      destruct (Lodash.baseSet (next :: rest') v inner) as [inner'| |] eqn:B;
        cbn [bind]; try discriminate.
      intros H. injection H as <-. rewrite below_assign. cbn [bind].
      rewrite (IH _ _ B).
      destruct (Lodash.baseSet (next :: rest') w inner); cbn [bind]; auto.
      now rewrite assign_assign.
Qed.

Lemma plain_paths_lookup {A} (l : list (string * A)) (key : string) (v : A) :
  plain_paths l -> In (key, v) l ->
  Js.lookup key l = Some v /\ Lodash.has_dot key = false.
Proof.
  induction l as [|[k x] l IH]; simpl; [tauto|].
  intros [D [F P]] [H|H].
  - injection H as -> ->. now rewrite String.eqb_refl.
  - destruct (IH P H) as [L D']. split; [|exact D'].
    destruct (k =? key)%string eqn:E; [|exact L].
    apply String.eqb_eq in E. subst k. congruence.
Qed.

Lemma separate_lookup {A} (l : list (string * A)) (k : string) (t : A) :
  separate l -> In (k, t) l -> Js.lookup k l = Some t.
Proof.
  induction l as [|[k' t'] l IH]; simpl; [tauto|].
  intros [U Sep] [H|H].
  - injection H as -> ->. now rewrite String.eqb_refl.
  - destruct (String.eqb_spec k' k) as [->|]; [|auto].
    rewrite Forall_forall in U. specialize (U _ H). simpl in U.
    now rewrite unrelated_irreflexive in U.
Qed.

Lemma plain_separate {A} (l : list (string * A)) : plain_paths l -> separate l.
Proof.
  induction l as [|[k t] l IH]; simpl; auto.
  intros [D [L P]]. split; [|auto].
  apply Forall_forall. intros [k' t'] I. simpl.
  destruct (plain_paths_lookup _ _ _ P I) as [_ D'].
  rewrite !stringToPath_plain by assumption. simpl.
  destruct (String.eqb_spec k k') as [->|]; [|reflexivity].
  now destruct (lookup_none_neq _ _ _ _ L I).
Qed.

(** ** Loops *)

(** A mutating method that leaves the instance alone on every path of a loop. *)
Lemma forEach_skip {A} (xs : list A) (body : A -> Method) (r : Resource) :
  (forall x, In x xs -> body x r = (r, Ret tt)) ->
  forEach xs body r = (r, Ret tt).
Proof.
  induction xs as [|x xs IH]; simpl; intros H; auto.
  unfold andThen. rewrite (H x (or_introl eq_refl)). apply IH.
  intros y Hy. apply H. now right.
Qed.

Lemma build_total (step : Props -> string -> Outcome Props) (paths : list string)
    (acc : Props) :
  (forall out p, In p paths -> exists out', step out p = Ret out') ->
  exists out, build paths step acc = Ret out.
Proof.
  revert acc. induction paths as [|p paths IH]; simpl; intros acc S; eauto.
  destruct (S acc p (or_introl eq_refl)) as [out' ->]. simpl.
  apply IH. intros out q Hq. apply S. now right.
Qed.

Lemma build_step_returned (step : Props -> string -> Outcome Props)
    (paths : list string) (acc out : Props) (p : string) :
  build paths step acc = Ret out -> In p paths ->
  exists o o', step o p = Ret o'.
Proof.
  revert acc. induction paths as [|q paths IH]; simpl; intros acc B I; [tauto|].
  destruct (step acc q) as [o1| |] eqn:E; cbn [bind] in B; try discriminate.
  destruct I as [->|I]; eauto.
Qed.

Lemma build_keys {A} (step : Props -> string -> Outcome Props)
    (todo : list (string * A)) (acc out : Props) :
  plain_paths todo ->
  (forall k t, In (k, t) todo -> Js.lookup k acc = None) ->
  (forall o k o', In k (Js.keys todo) -> step o k = Ret o' ->
     exists v, o' = Js.assign k v o) ->
  build (Js.keys todo) step acc = Ret out ->
  Js.keys out = (Js.keys acc ++ Js.keys todo)%list.
Proof.
  revert acc. induction todo as [|[k t] todo IH]; simpl; intros acc P F S B.
  - injection B as <-. now rewrite app_nil_r.
  - destruct P as [_ [N P]].
    destruct (step acc k) as [o'| |] eqn:E; simpl in B; try discriminate.
    destruct (S acc k o' (or_introl eq_refl) E) as [v ->].
    rewrite assign_fresh in B by (apply (F k t); now left).
    rewrite (IH _ P) with (3 := B).
    + unfold Js.keys. rewrite map_app, <- app_assoc. reflexivity.
    + intros k' t' I. apply lookup_app_fresh; [apply (F k' t'); now right|].
      exact (lookup_none_neq _ _ _ _ N I).
    + intros o q o' I. apply S. now right.
Qed.

(** A loop that writes a defined value at each of its paths, none of which
    extends another: every path reads back the value written at it, every
    key of the result is the first segment of a path, and what lies apart
    from the paths is as it was. *)
Lemma build_writes {A} (step : Props -> string -> Outcome Props) (val : string -> Value)
    (todo : list (string * A)) (acc out : Props) :
  separate todo -> dotfree_keys acc ->
  (forall o p o', In p (Js.keys todo) -> dotfree_keys o -> step o p = Ret o' ->
     val p <> VUndefined /\
     Lodash.baseSet (Lodash.stringToPath p) (val p) o = Ret o') ->
  build (Js.keys todo) step acc = Ret out ->
  dotfree_keys out /\
  (forall k, In k (Js.keys out) ->
     In k (Js.keys acc) \/
     exists p, In p (Js.keys todo) /\ hd_error (Lodash.stringToPath p) = Some k) /\
  (forall p, In p (Js.keys todo) ->
     Lodash.baseGet (Lodash.stringToPath p) (VObj out) = val p) /\
  (forall s,
     Forall (fun kt => unrelated s (Lodash.stringToPath (fst kt)) = true) todo ->
     Lodash.baseGet s (VObj out) = Lodash.baseGet s (VObj acc)).
Proof.
  revert acc. induction todo as [|[k t] todo IH]; simpl; intros acc Sep F W B.
  - injection B as <-. repeat split; auto. intros p [].
  - destruct Sep as [U Sep].
    destruct (step acc k) as [o1| |] eqn:E; cbn [bind] in B; try discriminate.
    destruct (W acc k o1 (or_introl eq_refl) F E) as [Dv S].
    destruct (Lodash.stringToPath k) as [|h rest] eqn:Ek;
      [now destruct (stringToPath_nonempty k)|].
    assert (Dh : Lodash.has_dot h = false).
    { apply (stringToPath_segments k). rewrite Ek. now left. }
    destruct (baseSet_assigns _ _ _ _ _ S) as [x Eo].
    assert (F1 : dotfree_keys o1) by (subst o1; now apply dotfree_assign).
    destruct (IH o1 Sep F1) with (2 := B) as [Fo [K [Ap Fr]]].
    { intros o p o' I. apply W. now right. }
    split; [exact Fo|]. split; [|split].
    + intros q I. destruct (K q I) as [I1|[p [Ip Hp]]].
      * subst o1. destruct (keys_assign _ _ _ _ I1) as [->|I2]; [|now left].
        right. exists k. rewrite Ek. split; [now left | reflexivity].
      * right. exists p. split; [now right | exact Hp].
    + intros p [<-|I]; [|now apply Ap].
      rewrite Ek, (Fr (h :: rest) U).
      assert (Nn : h :: rest <> []) by discriminate.
      exact (get_set_same _ _ _ _ Nn S).
    + intros s Us. inversion Us as [|? ? U1 U2]; subst. simpl in U1.
      rewrite (Fr s U2). rewrite Ek in U1. exact (get_set_other _ _ _ _ _ U1 S).
Qed.

(** ** [toJSON] as it runs *)

Lemma baseSet_dotfree (path : string) (v : Value) (o o' : Props) :
  dotfree_keys o -> Lodash.baseSet (Lodash.stringToPath path) v o = Ret o' ->
  dotfree_keys o'.
Proof.
  intros F S. pose proof (stringToPath_nonempty path) as Nn.
  destruct (Lodash.stringToPath path) as [|h rest] eqn:Ek; [contradiction|].
  destruct (baseSet_assigns _ _ _ _ _ S) as [x ->]. apply dotfree_assign; auto.
  apply (stringToPath_segments path). rewrite Ek. now left.
Qed.

Lemma get_defined (lo : Lower) (r : Resource) (path : string) (d v : Value) :
  Body.get lo r path d = Ret v -> v <> VUndefined.
Proof.
  unfold Body.get.
  assert (N : orNull d <> VUndefined) by (destruct d; discriminate).
  destruct (negb (Js.truthy _)) eqn:T.
  - destruct (Body.SCHEMA lo r); cbn [bind]; try discriminate.
    intros H. injection H as <-. now apply lodash_get_defined.
  - intros H. injection H as <-. now apply lodash_get_defined.
Qed.

Lemma prefix_related (a b : list string) : prefix a b = true -> unrelated a b = false.
Proof.
  revert b. induction a as [|x a IH]; intros [|y b]; simpl; auto; try discriminate.
  destruct (x =? y)%string; simpl; [apply IH | discriminate].
Qed.

Lemma find_nothing {A} (f : A -> bool) (l : list A) :
  (forall x, In x l -> f x = false) -> find f l = None.
Proof.
  induction l as [|x l IH]; simpl; intros H; auto.
  rewrite (H x (or_introl eq_refl)). apply IH. intros y I. apply H. now right.
Qed.

(** [toJSON] reads the api, the casts and the attributes of the instance. *)
Lemma snapshot_reads (lo : Lower) (r r' : Resource) (paths : list string)
    (shared : list (list string * list string)) (out store : Props) :
  r_api r' = r_api r -> r_casts r' = r_casts r ->
  Body.snapshot lo r' paths shared out store = Body.snapshot lo r paths shared out store.
Proof.
  intros Ha Hc. revert shared out store.
  induction paths as [|path paths IH]; intros shared out store; [reflexivity|].
  cbn [Body.snapshot].
  replace (Body.get lo (with_attributes store r') path VNull)
    with (Body.get lo (with_attributes store r) path VNull).
  - destruct (Body.get lo (with_attributes store r) path VNull) as [v| |];
      cbn [bind]; auto.
    destruct (Lodash.set out path v); cbn [bind]; auto.
    destruct (match find _ shared with Some _ => _ | None => _ end); cbn [bind]; auto.
  - unfold Body.get, Body.SCHEMA. destruct r, r'. simpl in *. now subst.
Qed.

Lemma toJSON_run_reads (lo : Lower) (r r' : Resource) :
  r_api r' = r_api r -> r_casts r' = r_casts r -> r_attributes r' = r_attributes r ->
  Body.toJSON_run lo r' = Body.toJSON_run lo r.
Proof.
  intros Ha Hc Hat. unfold Body.toJSON_run.
  now rewrite Hc, Hat, (snapshot_reads lo r r' _ _ _ _ Ha Hc).
Qed.

Lemma toJSON_reads (lo : Lower) (r r' : Resource) :
  r_api r' = r_api r -> r_casts r' = r_casts r -> r_attributes r' = r_attributes r ->
  Body.toJSON lo r' = Body.toJSON lo r.
Proof.
  intros Ha Hc Hat. unfold Body.toJSON.
  now rewrite (toJSON_run_reads lo r r' Ha Hc Hat).
Qed.

Lemma toJSON_run_returned (lo : Lower) (r : Resource) (body store : Props) :
  Body.toJSON lo r = Ret body -> Body.toJSON_store lo r = Ret store ->
  Body.toJSON_run lo r = Ret (body, store).
Proof.
  unfold Body.toJSON, Body.toJSON_store.
  destruct (Body.toJSON_run lo r) as [[o s]| |]; cbn [bind]; try discriminate.
  intros T W. injection T as <-. injection W as <-. reflexivity.
Qed.

(** Where no cast path extends another, no [set] of [toJSON] runs through
    an object of the store: the store is left alone, and [out] is built
    from what [get] reads in it. *)
Lemma snapshot_apart (lo : Lower) (r : Resource) (l : list (string * CastType))
    (shared : list (list string * list string)) (out store : Props) :
  separate l ->
  (forall root kt, In root shared -> In kt l ->
     unrelated (fst root) (Lodash.stringToPath (fst kt)) = true) ->
  dotfree_keys out ->
  Body.snapshot lo r (Js.keys l) shared out store =
    let* out' :=
      build (Js.keys l)
        (fun o p => let* v := Body.get lo (with_attributes store r) p VNull in
                    Lodash.set o p v) out in
    Ret (out', store).
Proof.
  revert shared out. induction l as [|[k t] l IH]; intros shared out S A D; [reflexivity|].
  destruct S as [S1 S2]. cbn [Js.keys map fst Body.snapshot build].
  destruct (Body.get lo (with_attributes store r) k VNull) as [v| |]; cbn [bind]; auto.
  destruct (Lodash.set out k v) as [out'| |] eqn:E; cbn [bind]; auto.
  rewrite castPath_dotfree by exact D.
  rewrite find_nothing.
  - cbn [bind]. apply IH; auto.
    + intros root kt I J. apply in_app_or in I. destruct I as [I|I].
      * apply filter_In in I. apply A; [tauto | now right].
      * destruct (_ && _); [|contradiction]. destruct I as [<-|[]]. simpl.
        rewrite Forall_forall in S1. now apply S1.
    + unfold Lodash.set in E. rewrite castPath_dotfree in E by exact D.
      exact (baseSet_dotfree _ _ _ _ D E).
  - intros root I. unfold extends.
    destruct (prefix (fst root) (Lodash.stringToPath k)) eqn:P; [|reflexivity].
    apply prefix_related in P.
    specialize (A root (k, t) I (or_introl eq_refl)). simpl in A. congruence.
Qed.

Lemma toJSON_apart (lo : Lower) (r : Resource) :
  separate (r_casts r) ->
  Body.toJSON lo r =
    build (Js.keys (r_casts r))
      (fun o p => let* v := Body.get lo r p VNull in Lodash.set o p v) [].
Proof.
  intros S. unfold Body.toJSON, Body.toJSON_run.
  rewrite (snapshot_apart lo r (r_casts r) [] [] (r_attributes r) S);
    [| intros root kt [] | apply Forall_nil].
  replace (with_attributes (r_attributes r) r) with r by now destruct r.
  now destruct (build _ _ _).
Qed.

Lemma toJSON_store_apart (lo : Lower) (r : Resource) (body : Props) :
  separate (r_casts r) ->
  Body.toJSON lo r = Ret body ->
  Body.toJSON_store lo r = Ret (r_attributes r).
Proof.
  intros S. unfold Body.toJSON, Body.toJSON_store, Body.toJSON_run.
  rewrite (snapshot_apart lo r (r_casts r) [] [] (r_attributes r) S);
    [| intros root kt [] | apply Forall_nil].
  destruct (build _ _ _); cbn [bind]; [reflexivity | discriminate..].
Qed.

(** What holds of [out] at the start and is kept by every [set] of a value
    that is not [undefined] holds of what [toJSON] returns. *)
Lemma snapshot_out_ind (lo : Lower) (r : Resource) (P : Props -> Prop)
    (paths : list string) (shared : list (list string * list string))
    (out store out' store' : Props) :
  P out ->
  (forall o p v o', In p paths -> v <> VUndefined -> Lodash.set o p v = Ret o' ->
     P o -> P o') ->
  Body.snapshot lo r paths shared out store = Ret (out', store') ->
  P out'.
Proof.
  revert shared out store. induction paths as [|p paths IH]; intros shared out store P0 St.
  - simpl. intros H. injection H as <- _. exact P0.
  - cbn [Body.snapshot].
    destruct (Body.get lo (with_attributes store r) p VNull) as [v| |] eqn:G;
      cbn [bind]; try discriminate.
    destruct (Lodash.set out p v) as [o1| |] eqn:E; cbn [bind]; try discriminate.
    destruct (match find _ shared with Some _ => _ | None => _ end) as [s1| |];
      cbn [bind]; try discriminate.
    apply IH.
    + exact (St out p v o1 (or_introl eq_refl) (get_defined _ _ _ _ _ G) E P0).
    + intros o q w o' I. apply St. now right.
Qed.

Lemma toJSON_out_ind (lo : Lower) (r : Resource) (P : Props -> Prop) (out : Props) :
  P [] ->
  (forall o p v o', In p (Js.keys (r_casts r)) -> v <> VUndefined ->
     Lodash.set o p v = Ret o' -> P o -> P o') ->
  Body.toJSON lo r = Ret out -> P out.
Proof.
  intros P0 St. unfold Body.toJSON, Body.toJSON_run.
  destruct (Body.snapshot lo r _ [] [] (r_attributes r)) as [[o s]| |] eqn:E;
    cbn [bind]; try discriminate.
  intros H. injection H as <-. exact (snapshot_out_ind lo r P _ _ _ _ _ _ P0 St E).
Qed.

(** ** Construction *)

Lemma constructor_initial (lo : Lower) (api : Collab) (attributes : Value) (path : string) :
  Body.constructor lo api attributes path =
  let* config := config_of api in
  Ret (MkResource api (RWrapper config None) [] [] [] "id"
         (MkStatus false false false false)
         (if (path =? "")%string then "/" else path)).
Proof.
  unfold Body.constructor. destruct (config_of api); reflexivity.
Qed.

(** C10.  Constructing the base Resource gives, for every api, attributes
    and path, an instance whose attribute store is empty: the [fill] of the
    constructor runs over an empty fillable list, so the result is the
    constructed instance whatever the attributes were (and the [TypeError] of
    [api.config] when the api is undefined). *)
Theorem constructor_discards_attributes (api : Collab) (attributes : Value) (path : string) :
  OgResource.constructor api attributes path =
  let* config := config_of api in
  Ret (MkResource api (RWrapper config None) [] [] [] "id"
         (MkStatus false false false false)
         (if (path =? "")%string then "/" else path)).
Proof. apply constructor_initial. Qed.

(** ** Falsy values on the two write paths *)

Lemma get_of_zero_falsy (key path : string) :
  Js.truthy (Lodash.get (VObj [(key, VNum (NInt 0))]) path VNull) = false.
Proof.
  unfold Lodash.get. simpl Lodash.nullish. cbv iota.
  pose proof (castPath_nonempty path (VObj [(key, VNum (NInt 0))])) as N.
  destruct (Lodash.castPath path (VObj [(key, VNum (NInt 0))])) as [|k rest];
    [contradiction|].
  simpl. destruct (key =? k)%string.
  - destruct (baseGet_primitive rest (VNum (NInt 0))) as [-> | ->];
      [discriminate | reflexivity | reflexivity].
  - destruct (baseGet_primitive rest VUndefined) as [-> | ->];
      [discriminate | reflexivity | reflexivity].
Qed.

(** C4.  On a Resource whose path [a] is fillable and cast as [integer],
    whatever is stored at [a]: [fill({a: 0})] returns with the instance
    unchanged, the falsy value being skipped, and [set('a', 0)] stores [0]
    at [a]. *)
Theorem fill_skips_zero_set_stores_zero (r : Resource) :
  Body.includes "a" (r_fillable r) = true ->
  Js.lookup "a" (r_casts r) = Some (TName "integer") ->
  r_api r <> CUndefined ->
  OgResource.fill (VObj [("a", VNum (NInt 0))]) r = (r, Ret tt) /\
  OgResource.set "a" (VNum (NInt 0)) r =
    (with_attributes (Js.assign "a" (VNum (NInt 0)) (r_attributes r)) r, Ret tt) /\
  Lodash.get (VObj (Js.assign "a" (VNum (NInt 0)) (r_attributes r))) "a" VUndefined
    = VNum (NInt 0).
Proof.
  intros Hfill Hcast Hapi. split; [|split].
  - unfold OgResource.fill, Body.fill. apply forEach_skip. intros path _.
    now rewrite get_of_zero_falsy.
  - unfold OgResource.set, Body.set, Body.assigning. rewrite Hfill. simpl negb. cbv iota.
    destruct (r_api r) as [|id cfg|id cfg ab] eqn:E; [contradiction| |];
      simpl; unfold Body.getCastValue; simpl orNull; rewrite Hcast; reflexivity.
  - unfold Lodash.get. simpl Lodash.nullish. cbv iota.
    rewrite castPath_plain by reflexivity. simpl Lodash.baseGet.
    unfold Js.prop. now rewrite lookup_assign_same.
Qed.

Lemma fill_skips_zero_set_stores_zero_witness :
  OgResource.fill (VObj [("a", VNum (NInt 0))]) counter_resource = (counter_resource, Ret tt) /\
  Lodash.get (VObj (r_attributes (fst (OgResource.set "a" (VNum (NInt 0)) counter_resource))))
    "a" VUndefined = VNum (NInt 0).
Proof.
  destruct (fill_skips_zero_set_stores_zero counter_resource) as [H1 [H2 H3]];
    [reflexivity | reflexivity | discriminate |].
  split; [exact H1 | rewrite H2; exact H3].
Defined.

(** ** [filled] against [get] *)

(** C9.  [filled(path)] is true exactly when the value stored at the path
    is neither [null] nor absent; so it is true for a stored [0] or
    [false], where [get(path)] answers with the value the schema has at
    that path instead. *)
Theorem filled_is_null_check (r : Resource) (path : string) :
  OgResource.filled r path = negb (Lodash.nullish (stored r path)) /\
  forall v defaultValue,
    stored r path = v -> v = VNum (NInt 0) \/ v = VBool false ->
    OgResource.filled r path = true /\
    OgResource.get r path defaultValue =
      let* schema := OgResource.SCHEMA r in
      Ret (Lodash.get (VObj schema) path (orNull defaultValue)).
Proof.
  assert (F : OgResource.filled r path = negb (Lodash.nullish (stored r path))).
  { unfold OgResource.filled, Body.filled, stored, Lodash.get.
    destruct (if Lodash.nullish (VObj (r_attributes r)) then VUndefined
              else Lodash.baseGet _ _); reflexivity. }
  split; [exact F|]. intros v d Hs Hv. split.
  - rewrite F, Hs. now destruct Hv as [-> | ->].
  - unfold OgResource.get, Body.get. fold (OgResource.SCHEMA r).
    rewrite get_default_unused; fold (stored r path); rewrite Hs.
    + now destruct Hv as [-> | ->].
    + now destruct Hv as [-> | ->].
Qed.

Lemma filled_is_null_check_witness :
  OgResource.filled zero_resource "a" = true /\
  OgResource.get zero_resource "a" VUndefined =
    let* schema := OgResource.SCHEMA zero_resource in
    Ret (Lodash.get (VObj schema) "a" VNull).
Proof.
  apply (proj2 (filled_is_null_check zero_resource "a") (VNum (NInt 0)) VUndefined).
  - reflexivity.
  - now left.
Defined.

(** ** The [integer] cast *)

Lemma parseInt_orNull (v : Value) : Js.parseInt (orNull v) = Js.parseInt v.
Proof. now destruct v. Qed.

Lemma parseInt_falsy (v : Value) :
  Js.truthy v = false ->
  Js.parseInt v = Ret NNaN \/ Js.parseInt v = Ret (NInt 0).
Proof.
  destruct v as [| |b|n|s|props|r]; simpl; try discriminate; auto.
  - destruct b; [discriminate | auto].
  - destruct n as [|z]; auto.
    destruct (Z.eqb_spec z 0) as [->|]; [auto | discriminate].
  - destruct s; [auto | discriminate].
Qed.

Lemma integer_cast_7x_is_not_zero :
  OgResource.constructor transport VUndefined "people"
    = Ret (constructed transport (CConfig 2 CUndefined) "people") /\
  OgResource.toJSON ana <> Ret [("name", VStr "Ana"); ("age", VNum (NInt 0))].
Proof. split; [reflexivity | vm_compute; discriminate]. Qed.

(** C3, as the code has it.  On a path cast as [integer] the casting engine
    gives what [parseInt(value, 10)] reads at the head of the value's
    string form (white space, a sign, decimal digits), and [0] when there is
    no digit there or when the value is falsy; so
    [fill({name: 'Ana', age: '7x'})] makes [toJSON()] equal
    [{name: 'Ana', age: 7}]. *)
Theorem integer_cast_is_parseInt :
  (forall config key casts v,
     Js.lookup key casts = Some (TName "integer") ->
     (forall z, Js.parseInt v = Ret (NInt z) ->
        OgResource.getCastValue config key casts v = Ret (VNum (NInt z))) /\
     (Js.parseInt v = Ret NNaN ->
        OgResource.getCastValue config key casts v = Ret (VNum (NInt 0))) /\
     (Js.truthy v = false ->
        OgResource.getCastValue config key casts v = Ret (VNum (NInt 0)))) /\
  Js.parseInt (VStr "7x") = Ret (NInt 7) /\
  OgResource.toJSON ana = Ret [("name", VStr "Ana"); ("age", VNum (NInt 7))].
Proof.
  split; [|split; reflexivity].
  intros config key casts v Hcast.
  assert (E : OgResource.getCastValue config key casts v =
              let* n := Js.parseInt v in Ret (Js.or_zero n)).
  { unfold OgResource.getCastValue, Body.getCastValue. rewrite Hcast. simpl.
    now rewrite parseInt_orNull. }
  rewrite E. split; [|split].
  - intros z ->. simpl. unfold Js.or_zero. simpl.
    destruct (Z.eqb_spec z 0) as [->|]; reflexivity.
  - now intros ->.
  - intros F. destruct (parseInt_falsy v F) as [-> | ->]; reflexivity.
Qed.

Lemma integer_cast_is_parseInt_witness :
  OgResource.getCastValue CUndefined "age" [("age", TName "integer")] (VStr " -12abc")
    = Ret (VNum (NInt (-12))).
Proof.
  apply (proj1 integer_cast_is_parseInt CUndefined "age" [("age", TName "integer")]
           (VStr " -12abc") eq_refl).
  reflexivity.
Defined.

(** ** [save] on a failed transport outcome *)


(** [save] up to the request: the wrapper cleared, [creating] raised, and
    the store as [toJSON] left it. *)
Lemma save_unfolds (r : Resource) (st : OgApi.State)
    (fetched : Outcome OgApi.FetchResponse) (id : nat) (cfg config : Collab)
    (last : option (ApiResponse unit)) (body store : Props) :
  r_api r = CApi id cfg true ->
  r_response r = RWrapper config last ->
  OgResource.toJSON r = Ret body ->
  OgResource.toJSON_store r = Ret store ->
  OgResource.save st fetched r =
    match OgApi.post st fetched with
    | (st', Ret payload) =>
        let '(r3, o) :=
          Body.save_reduce (OgResource.classes r)
            (received config payload (with_attributes store r)) in
        (r3, st', o)
    | (st', Throw e) => (armed config (with_attributes store r), st', Throw e)
    | (st', OutOfModel) => (armed config (with_attributes store r), st', OutOfModel)
    end.
Proof.
  destruct r as [api x f c a k s p]. simpl. intros -> -> T W.
  unfold OgResource.save, OgResource.classes, OgResource.toJSON,
    OgResource.toJSON_store, OgResource.classes in *.
  simpl r_casts in *. unfold Body.save, andThen. simpl.
  unfold Body.save_post. simpl r_api. cbv iota.
  rewrite (toJSON_run_reads _ (MkResource (CApi id cfg true) (RWrapper config last)
                                 f c a k s p)) by reflexivity.
  rewrite (toJSON_run_returned _ _ body store T W).
  destruct (OgApi.post st fetched) as [st' [payload| |]]; reflexivity.
Qed.



(** Where a cast path extends another, the [toJSON()] call of [save] is
    seen in the store: with the casts [a] and [a.b] and [{a: {c: 1}}]
    stored, a [save] on a failed outcome returns with [{a: {c: 1, b: 0}}]
    stored. *)
Example save_writes_through_overlapped_casts :
  reachable annex /\
  r_attributes annex = [("a", VObj [("c", VNum (NInt 1))])] /\
  OgResource.save OgApi.initial expired annex =
    (idle (with_response (RPlain (VObj []))
             (with_attributes
                [("a", VObj [("c", VNum (NInt 1)); ("b", VNum (NInt 0))])] annex)),
     MkApiResponse false "Expired" 419 (VObj []), Ret tt).
Proof.
  split; [|split; reflexivity].
  apply (reach_run (OpFill (VObj [("a", VObj [("c", VNum (NInt 1))])]))).
  apply (reach_run (OpCast "a.b" (TName "integer"))).
  apply (reach_run (OpCast "a" (TName "object"))).
  apply (reach_constructor transport VUndefined "annexes"). reflexivity.
Qed.

(** Over an [OgApi] as it is under [src/], the first statement of [save],
    [this.$api.abort()], throws before any request is made. *)
Example save_without_abort_throws :
  OgResource.save OgApi.initial expired ana_plain =
    (ana_plain, OgApi.initial, Throw TypeError).
Proof. reflexivity. Qed.

(** ** [abort] and the attribute snapshot *)

Lemma abort_drops_uncast_attribute :
  reachable nick /\
  r_attributes nick = [("nick", VStr "x")] /\
  snd (OgResource.abort nick) = Ret tt /\
  r_attributes (fst (OgResource.abort nick)) = [] /\
  r_attributes (fst (OgResource.abort nick)) <> r_attributes nick.
Proof.
  split.
  { apply (reach_run (OpSet "nick" (VStr "x"))).
    apply (reach_run (OpFillable "nick")).
    apply (reach_constructor transport VUndefined "people"). reflexivity. }
  repeat split; try reflexivity. discriminate.
Qed.

(** C5, as the code has it.  When [abort()] returns, the attribute snapshot
    it leaves is the [toJSON()] output of the state it was called on, all
    four status flags are false and the Response Wrapper is cleared; the
    snapshot is therefore unchanged exactly on the states whose snapshot
    already is their [toJSON()] output, as after [define()] or [reset()].
    And [abort()] does return when the transport has an [abort], the
    [$response] is the wrapper and [toJSON()] returns. *)
Theorem abort_resnapshots (r : Resource) :
  (forall r',
     OgResource.abort r = (r', Ret tt) ->
     OgResource.toJSON r = Ret (r_attributes r') /\
     r_status r' = MkStatus false false false false /\
     (exists config, r_response r' = RWrapper config None) /\
     (OgResource.toJSON r = Ret (r_attributes r) <-> r_attributes r' = r_attributes r)) /\
  (forall id cfg config last out,
     r_api r = CApi id cfg true -> r_response r = RWrapper config last ->
     OgResource.toJSON r = Ret out ->
     OgResource.abort r =
       (with_attributes out
          (with_response (RWrapper config None)
             (with_status (MkStatus false false false false) r)),
        Ret tt)).
Proof.
  unfold OgResource.abort, OgResource.toJSON, OgResource.classes, Body.abort, andThen,
    Body.api_abort, Body._statusReset, Body.response_clear, Body.reset, Body.assigning.
  destruct r as [api x f c a k s p]. simpl. split.
  - intros r'. destruct api as [|id cfg|id cfg [|]]; try discriminate.
    destruct x as [config last|v]; simpl; [|discriminate].
    set (r2 := MkResource _ _ _ _ _ _ _ _).
    rewrite (toJSON_reads _ (MkResource (CApi id cfg true) (RWrapper config last) f c a k s p)
               r2) by reflexivity.
    destruct (Body.toJSON _ _) as [out| |]; try discriminate.
    intros H. injection H as <-. simpl.
    repeat split; eauto; [intros E; now injection E | now intros ->].
  - intros id cfg config last out -> -> T. simpl.
    set (r2 := MkResource _ _ _ _ _ _ _ _).
    rewrite (toJSON_reads _ (MkResource (CApi id cfg true) (RWrapper config last) f c a k s p)
               r2) by reflexivity.
    now rewrite T.
Qed.

Lemma abort_resnapshots_witness :
  OgResource.toJSON ana = Ret (r_attributes ana) /\
  r_attributes (fst (OgResource.abort ana)) = r_attributes ana /\
  r_status (fst (OgResource.abort ana)) = MkStatus false false false false.
Proof.
  destruct (proj1 (abort_resnapshots ana) (fst (OgResource.abort ana)) eq_refl)
    as [H1 [H2 [_ H4]]].
  split; [reflexivity|]. split; [apply (proj1 H4); reflexivity | exact H2].
Defined.

(** ** Cast implies fillable *)

Lemma keeps_shape_preserves (m : Method) :
  keeps_shape m -> preserves cast_implies_fillable m.
Proof.
  intros K r I path. destruct (K r) as [-> ->]. apply I.
Qed.

Lemma andThen_keeps (m1 m2 : Method) :
  keeps_shape m1 -> keeps_shape m2 -> keeps_shape (andThen m1 m2).
Proof.
  intros K1 K2 r. unfold andThen. specialize (K1 r).
  destruct (m1 r) as [r1 [[]|e|]]; simpl in *; auto.
  destruct (K2 r1) as [-> ->]. exact K1.
Qed.

Lemma andThen_preserves (P : Resource -> Prop) (m1 m2 : Method) :
  preserves P m1 -> preserves P m2 -> preserves P (andThen m1 m2).
Proof.
  intros P1 P2 r I. unfold andThen. specialize (P1 r I).
  destruct (m1 r) as [r1 [[]|e|]]; simpl in *; auto.
Qed.

Lemma forEach_keeps {A} (xs : list A) (body : A -> Method) :
  (forall x, keeps_shape (body x)) -> keeps_shape (forEach xs body).
Proof.
  intros K. induction xs as [|x xs IH]; simpl.
  - intros r. now split.
  - apply andThen_keeps; auto.
Qed.

Lemma forEach_preserves {A} (P : Resource -> Prop) (xs : list A) (body : A -> Method) :
  (forall x, preserves P (body x)) -> preserves P (forEach xs body).
Proof.
  intros K. induction xs as [|x xs IH]; simpl.
  - intros r I. exact I.
  - apply andThen_preserves; auto.
Qed.

Lemma assigning_attributes_keeps {A} (e : Resource -> Outcome A)
    (store : A -> Resource -> Resource) :
  (forall a r, r_casts (store a r) = r_casts r /\ r_fillable (store a r) = r_fillable r) ->
  keeps_shape (Body.assigning e store).
Proof.
  intros S r. unfold Body.assigning. destruct (e r); simpl; auto.
Qed.

Lemma with_attributes_shape (a : Props) (r : Resource) :
  r_casts (with_attributes a r) = r_casts r /\
  r_fillable (with_attributes a r) = r_fillable r.
Proof. now destruct r. Qed.

Section Shape.

Variable lo : Lower.

Lemma set_keeps (path : string) (value : Value) : keeps_shape (Body.set lo path value).
Proof.
  intros r. unfold Body.set.
  destruct (negb (Body.includes path (r_fillable r))); [now split|].
  apply (assigning_attributes_keeps _ _ with_attributes_shape).
Qed.

Lemma fill_keeps (attributes : Value) : keeps_shape (Body.fill lo attributes).
Proof.
  intros r. unfold Body.fill. apply forEach_keeps. intros path r0.
  destruct (negb (Js.truthy _)); [now split | apply set_keeps].
Qed.

Lemma reset_keeps : keeps_shape (Body.reset lo).
Proof. apply (assigning_attributes_keeps _ _ with_attributes_shape). Qed.

Lemma statusReset_keeps : keeps_shape Body._statusReset.
Proof. intros r. now destruct r. Qed.

Lemma set_creating_keeps (b : bool) : keeps_shape (Body.set_creating b).
Proof. intros r. now destruct r. Qed.

Lemma api_abort_keeps : keeps_shape Body.api_abort.
Proof.
  intros r. unfold Body.api_abort.
  destruct (r_api r) as [| |? ? []]; now split.
Qed.

Lemma response_clear_keeps : keeps_shape Body.response_clear.
Proof.
  intros r. unfold Body.response_clear.
  destruct (OgResponse.clear (r_response r)); simpl; try now split.
  now destruct r.
Qed.

Lemma abort_keeps : keeps_shape (Body.abort lo).
Proof.
  unfold Body.abort.
  repeat apply andThen_keeps;
    auto using api_abort_keeps, statusReset_keeps, response_clear_keeps, reset_keeps.
Qed.

Lemma save_reduce_keeps : keeps_shape (Body.save_reduce lo).
Proof.
  intros r. unfold Body.save_reduce.
  destruct (OgResponse.failed (r_response r)) as [f| |]; try now split.
  destruct (Js.truthy f).
  - apply andThen_keeps; [apply statusReset_keeps|].
    intros r0. unfold Body.throwing. now destruct (let* m := _ in _).
  - destruct (r_response r); [now split|].
    apply andThen_keeps; [apply fill_keeps | apply set_creating_keeps].
Qed.

Lemma save_keeps (st : OgApi.State) (fetched : Outcome OgApi.FetchResponse) (r : Resource) :
  r_casts (fst (fst (Body.save lo st fetched r))) = r_casts r /\
  r_fillable (fst (fst (Body.save lo st fetched r))) = r_fillable r.
Proof.
  unfold Body.save.
  pose proof (andThen_keeps _ _ api_abort_keeps
                (andThen_keeps _ _ statusReset_keeps
                   (andThen_keeps _ _ response_clear_keeps (set_creating_keeps true))) r) as K.
  destruct (andThen Body.api_abort _ r) as [r1 [[]|e|]]; simpl in *; auto.
  assert (K2 : r_casts (fst (fst (Body.save_post lo st fetched r1))) = r_casts r1 /\
               r_fillable (fst (fst (Body.save_post lo st fetched r1))) = r_fillable r1).
  { unfold Body.save_post. destruct (r_api r1); simpl; auto.
    destruct (Body.toJSON_run lo r1) as [[body store]| |]; simpl; auto.
    destruct (OgApi.post st fetched) as [st' [payload|e|]]; simpl; now destruct r1. }
  destruct (Body.save_post lo st fetched r1) as [[r2 st'] [[]|e|]]; simpl in *;
    try (destruct K2 as [-> ->]; exact K).
  pose proof (save_reduce_keeps r2) as K3.
  destruct (Body.save_reduce lo r2) as [r3 o]. simpl in *.
  destruct K3 as [-> ->]. destruct K2 as [-> ->]. exact K.
Qed.

Lemma fillable_preserves (path : string) :
  preserves cast_implies_fillable (Body.fillable path).
Proof.
  intros r I q Hq. unfold Body.fillable in *. destruct r; simpl in *.
  apply in_or_app. left. now apply I.
Qed.

Lemma cast_preserves (path : string) (type : CastType) :
  preserves cast_implies_fillable (Body.cast path type).
Proof.
  intros r I q. unfold Body.cast, andThen, Body.fillable. destruct r; simpl in *.
  intros Hq. apply in_or_app.
  destruct (keys_assign _ _ _ _ Hq) as [->|H]; [right; now left | left; now apply I].
Qed.

Lemma define_preserves (casts : list (string * CastType)) :
  preserves cast_implies_fillable (Body.define lo casts).
Proof.
  unfold Body.define. apply andThen_preserves.
  - apply forEach_preserves. intros path r I.
    destruct (Js.lookup path casts); [now apply cast_preserves | exact I].
  - apply keeps_shape_preserves, reset_keeps.
Qed.

Lemma constructor_shape (api : Collab) (attributes : Value) (path : string) (r : Resource) :
  Body.constructor lo api attributes path = Ret r -> cast_implies_fillable r.
Proof.
  rewrite constructor_initial. destruct (config_of api); simpl; try discriminate.
  intros H. injection H as <-. intros q [].
Qed.

Lemma new_class_shape (type : ResClass) (api : Collab) (attributes : Value) (r : Resource) :
  Body.new_class lo type api attributes = Ret r -> cast_implies_fillable r.
Proof.
  destruct type as [cpath cdefs cfill]. unfold Body.new_class.
  destruct (Body.constructor lo api attributes cpath) as [this| |] eqn:C;
    simpl; try discriminate.
  pose proof (define_preserves cdefs this (constructor_shape _ _ _ _ C)) as D.
  destruct (Body.define lo cdefs this) as [this1 [[]|e|]]; try discriminate.
  simpl in D. destruct cfill.
  - pose proof (keeps_shape_preserves _ (fill_keeps attributes) this1 D) as F.
    destruct (Body.fill lo attributes this1) as [this2 [[]|e|]]; try discriminate.
    intros H. injection H as <-. exact F.
  - intros H. injection H as <-. exact D.
Qed.

End Shape.

(** C8.  In every state reached from a constructed instance by any sequence
    of [define], [cast], [fillable], [fill], [set], [save], [abort] and
    [reset], whether the calls returned or threw, every path that has a
    cast is in the fillable list. *)
Theorem reachable_cast_implies_fillable (r : Resource) :
  reachable r -> cast_implies_fillable r.
Proof.
  induction 1 as [api attributes path r C|type api attributes r C|op r R IH].
  - unfold OgResource.constructor in C. exact (constructor_shape _ _ _ _ _ C).
  - unfold OgResource.new in C. exact (new_class_shape _ _ _ _ _ C).
  - destruct op; simpl.
    + now apply define_preserves.
    + now apply cast_preserves.
    + now apply fillable_preserves.
    + now apply (keeps_shape_preserves _ (fill_keeps _ _)).
    + now apply (keeps_shape_preserves _ (set_keeps _ _ _)).
    + intros q. destruct (save_keeps (OgResource.classes r) st fetched r) as [Hc Hf].
      unfold OgResource.save. rewrite Hc, Hf. apply IH.
    + now apply (keeps_shape_preserves _ (abort_keeps _)).
    + now apply (keeps_shape_preserves _ (reset_keeps _)).
Qed.

Lemma reachable_cast_implies_fillable_witness :
  reachable ana /\ cast_implies_fillable ana.
Proof.
  assert (R : reachable ana).
  { apply (reach_run (OpFill (VObj [("name", VStr "Ana"); ("age", VStr "7x")]))).
    apply (reach_run (OpCast "age" (TName "integer"))).
    apply (reach_run (OpCast "name" (TName "string"))).
    apply (reach_constructor transport VUndefined "people"). reflexivity. }
  split; [exact R | exact (reachable_cast_implies_fillable ana R)].
Defined.

(** ** What a nested cast constructs *)

Lemma andThen_keeps_api (m1 m2 : Method) :
  keeps_api m1 -> keeps_api m2 -> keeps_api (andThen m1 m2).
Proof.
  intros K1 K2 r. unfold andThen. specialize (K1 r).
  destruct (m1 r) as [r1 [[]|e|]]; simpl in *; auto.
  now rewrite K2.
Qed.

Lemma forEach_keeps_api {A} (xs : list A) (body : A -> Method) :
  (forall x, keeps_api (body x)) -> keeps_api (forEach xs body).
Proof.
  intros K. induction xs as [|x xs IH]; simpl.
  - now intros r.
  - apply andThen_keeps_api; auto.
Qed.

Lemma assigning_attributes_keeps_api {A} (lo : Lower) (e : Resource -> Outcome A)
    (store : A -> Resource -> Resource) :
  (forall a r, r_api (store a r) = r_api r) -> keeps_api (Body.assigning e store).
Proof.
  intros S r. unfold Body.assigning. destruct (e r); simpl; auto.
Qed.

Lemma with_attributes_api (a : Props) (r : Resource) :
  r_api (with_attributes a r) = r_api r.
Proof. now destruct r. Qed.

Lemma fill_keeps_api (lo : Lower) (attributes : Value) : keeps_api (Body.fill lo attributes).
Proof.
  intros r. unfold Body.fill. apply forEach_keeps_api. intros path r0.
  destruct (negb (Js.truthy _)); [reflexivity|].
  unfold Body.set. destruct (negb (Body.includes path (r_fillable r0))); [reflexivity|].
  apply (assigning_attributes_keeps_api lo _ _ with_attributes_api).
Qed.

Lemma define_keeps_api (lo : Lower) (casts : list (string * CastType)) :
  keeps_api (Body.define lo casts).
Proof.
  unfold Body.define. apply andThen_keeps_api.
  - apply forEach_keeps_api. intros path r.
    destruct (Js.lookup path casts); [|reflexivity].
    unfold Body.cast, andThen, Body.fillable. now destruct r.
  - apply (assigning_attributes_keeps_api lo _ _ with_attributes_api).
Qed.

Lemma new_class_api (lo : Lower) (type : ResClass) (api : Collab) (attributes : Value)
    (r : Resource) :
  Body.new_class lo type api attributes = Ret r -> r_api r = api.
Proof.
  destruct type as [cpath cdefs cfill]. unfold Body.new_class.
  rewrite constructor_initial. destruct (config_of api); simpl; try discriminate.
  set (this := MkResource _ _ _ _ _ _ _ _).
  pose proof (define_keeps_api lo cdefs this) as D.
  destruct (Body.define lo cdefs this) as [this1 [[]|e|]]; try discriminate.
  simpl in D. destruct cfill.
  - pose proof (fill_keeps_api lo attributes this1) as F.
    destruct (Body.fill lo attributes this1) as [this2 [[]|e|]]; try discriminate.
    intros H. injection H as <-. simpl in F. now rewrite F, D.
  - intros H. injection H as <-. exact D.
Qed.

Lemma config_of_differs (api config : Collab) : config_of api = Ret config -> config <> api.
Proof.
  intros H E. subst config.
  destruct api; simpl in H; try discriminate; injection H as H;
    apply (f_equal collab_depth) in H; simpl in H; lia.
Qed.

(** C2, what the code does.  The casting engine calls
    [new type(config, value)] with the parent's [$api.config] where the
    constructor takes the api: the [$api] of every child it returns is that
    config, an object other than the transport the parent holds in [$api].
    The value reaches the base constructor, whose [fill] runs over an empty
    fillable list and stores nothing.  In the household whose [address] was
    set to [{city: 'Lima'}], the child's [city] reads the schema's empty
    string. *)
Theorem nested_child_holds_config_and_drops_input :
  (forall config key casts type value child,
     Js.lookup key casts = Some (TClass type) ->
     OgResource.getCastValue config key casts value = Ret (VRes child) ->
     r_api child = config) /\
  (forall api config, config_of api = Ret config -> config <> api) /\
  (forall config value path r,
     OgResource.constructor config value path = Ret r -> r_attributes r = []) /\
  (exists child,
     stored household "address" = VRes child /\
     config_of (r_api household) = Ret (r_api child) /\
     r_api child <> r_api household /\
     OgResource.get child "city" VNull = Ret (VStr "") /\
     OgResource.new BareResource (CConfig 2 CUndefined) lima
       = Ret (constructed (CConfig 2 CUndefined) CUndefined "/")).
Proof.
  split; [|split; [|split]].
  - intros config key casts type value child L.
    unfold OgResource.getCastValue, Body.getCastValue. rewrite L.
    destruct (casts_depth casts) as [|n]; simpl; [discriminate|].
    destruct (Body.new_class (level n) type config (orNull value)) as [c| |] eqn:N;
      simpl; try discriminate.
    intros H. injection H as <-. exact (new_class_api _ _ _ _ _ N).
  - exact config_of_differs.
  - intros config value path r. unfold OgResource.constructor.
    rewrite constructor_initial. destruct (config_of config); simpl; try discriminate.
    intros H. now injection H as <-.
  - eexists. split; [reflexivity|].
    split; [reflexivity|]. split; [discriminate|]. split; reflexivity.
Qed.

Lemma nested_child_holds_config_and_drops_input_witness :
  OgResource.getCastValue (CConfig 2 CUndefined) "address"
    [("address", TClass AddressResource)] lima = Ret (VRes lima_child) /\
  r_api lima_child = CConfig 2 CUndefined.
Proof.
  split; [reflexivity|].
  apply (proj1 nested_child_holds_config_and_drops_input (CConfig 2 CUndefined)
           "address" [("address", TClass AddressResource)] AddressResource lima
           lima_child); reflexivity.
Defined.

(** ** The schema, level by level *)

Lemma getCastValue_name_null (lo : Lower) (config : Collab) (key name : string)
    (casts : list (string * CastType)) (v : Value) :
  Js.lookup key casts = Some (TName name) ->
  v = VNull \/ v = VUndefined ->
  Body.getCastValue lo config key casts v = Ret (zero_of_name name).
Proof.
  intros L V. unfold Body.getCastValue, zero_of_name. rewrite L.
  assert (E : orNull v = VNull) by (destruct V; subst; reflexivity). rewrite E.
  destruct name as [|c name]; [reflexivity|].
  destruct (String c name =? "boolean")%string; [reflexivity|].
  destruct (String c name =? "string")%string; [reflexivity|].
  destruct (String c name =? "integer")%string; [reflexivity|].
  destruct (String c name =? "decimal")%string; reflexivity.
Qed.

Lemma zero_of_name_not_instance (name : string) (r : Resource) :
  zero_of_name name <> VRes r.
Proof.
  unfold zero_of_name.
  repeat match goal with |- context [if ?b then _ else _] => destruct b end; discriminate.
Qed.

Lemma zero_of_name_defined (name : string) : zero_of_name name <> VUndefined.
Proof.
  unfold zero_of_name.
  repeat match goal with |- context [if ?b then _ else _] => destruct b end; discriminate.
Qed.

Lemma zero_value_defined (t : CastType) : zero_value t <> VUndefined.
Proof.
  destruct t as [name|[cpath cdefs cfill]]; [apply zero_of_name_defined | discriminate].
Qed.

(** A loop whose every step writes one fresh single-segment path. *)
Lemma build_schema_of (step : Props -> string -> Outcome Props)
    (todo : list (string * CastType)) (acc : Props) :
  plain_paths todo ->
  (forall k t, In (k, t) todo -> Js.lookup k acc = None) ->
  (forall out k t, In (k, t) todo -> step out k = Ret (Js.assign k (zero_value t) out)) ->
  build (Js.keys todo) step acc = Ret (acc ++ schema_of todo)%list.
Proof.
  revert acc. induction todo as [|[k t] todo IH]; simpl; intros acc P F S.
  - now rewrite app_nil_r.
  - destruct P as [_ [L P]].
    rewrite (S acc k t (or_introl eq_refl)). simpl.
    rewrite assign_fresh by (apply (F k t); now left).
    rewrite IH; auto.
    + now rewrite <- app_assoc.
    + intros k' t' H'. apply lookup_app_fresh; [apply (F k' t'); now right|].
      exact (lookup_none_neq _ _ _ _ L H').
Qed.

Lemma type_depth_class (cpath : string) (cdefs : list (string * CastType)) (cfill : bool) :
  type_depth (TClass (MkClass cpath cdefs cfill)) = S (casts_depth cdefs).
Proof. reflexivity. Qed.

Lemma plain_type_class (cpath : string) (cdefs : list (string * CastType)) (cfill : bool) :
  plain_type (TClass (MkClass cpath cdefs cfill)) -> plain_casts cdefs.
Proof.
  simpl. intros [P T]. split; [exact P | exact T].
Qed.

Lemma casts_depth_in (casts : list (string * CastType)) (k : string) (t : CastType) :
  In (k, t) casts -> (type_depth t <= casts_depth casts)%nat.
Proof.
  induction casts as [|[k' t'] l IH]; simpl; [tauto|].
  intros [H|H]; [injection H as -> ->; lia | specialize (IH H); lia].
Qed.

Lemma plain_types_in (casts : list (string * CastType)) (k : string) (t : CastType) :
  plain_types casts -> In (k, t) casts -> plain_type t.
Proof.
  induction casts as [|[k' t'] l IH]; simpl; [tauto|].
  intros [T1 T2] [H|H]; [now injection H as -> -> | auto].
Qed.

Lemma config_of_depth (api : Collab) (n : nat) :
  (n < collab_depth api)%nat ->
  exists config, config_of api = Ret config /\ (n <= collab_depth config)%nat.
Proof.
  destruct api as [|id cfg|id cfg ab]; simpl; intros H; [lia| |];
    exists cfg; split; auto; lia.
Qed.

Lemma SCHEMA_step (lo : Lower) (d : nat) (r : Resource) (out : Props)
    (k : string) (t : CastType) :
  provides lo d ->
  plain_casts (r_casts r) -> (casts_depth (r_casts r) <= d)%nat ->
  (casts_depth (r_casts r) < collab_depth (r_api r))%nat ->
  In (k, t) (r_casts r) ->
  (let* config := config_of (r_api r) in
   let* cast := Body.getCastValue lo config k (r_casts r) VNull in
   let* schema1 := Lodash.set out k cast in
   match Lodash.get (VObj schema1) k VUndefined with
   | VRes value =>
       let* inner := schema_ lo value in Lodash.set schema1 k (VObj inner)
   | _ => Ret schema1
   end) = Ret (Js.assign k (zero_value t) out).
Proof.
  intros [Pnew Psch] [PP PT] D C I.
  destruct (plain_paths_lookup _ _ _ PP I) as [L Hdot].
  destruct (config_of_depth _ _ C) as [config [-> Dc]]. simpl.
  pose proof (casts_depth_in _ _ _ I) as Dt.
  pose proof (plain_types_in _ _ _ PT I) as Pt.
  destruct t as [name|[cpath cdefs cfill]].
  - rewrite (getCastValue_name_null lo config k name) by auto. simpl.
    rewrite set_plain by exact Hdot. simpl.
    rewrite get_plain by exact Hdot. unfold Js.prop. rewrite lookup_assign_same.
    pose proof (zero_of_name_not_instance name) as NI.
    destruct (zero_of_name name); try reflexivity. now destruct (NI r0).
  - rewrite type_depth_class in Dt.
    pose proof (plain_type_class _ _ _ Pt) as Pc.
    destruct (Pnew cpath cdefs cfill config Pc) as [child [N [Hc Ha]]]; [lia | lia |].
    unfold Body.getCastValue. rewrite L. simpl orNull. cbv iota. rewrite N. simpl.
    rewrite set_plain by exact Hdot. simpl.
    rewrite get_plain by exact Hdot. unfold Js.prop. rewrite lookup_assign_same.
    rewrite Psch; rewrite ?Hc, ?Ha; auto; try lia. simpl.
    rewrite set_plain by exact Hdot. now rewrite assign_assign.
Qed.

Lemma SCHEMA_step_split (lo : Lower) (d : nat) (r : Resource) (out o' : Props)
    (k : string) (t : CastType) :
  provides lo d ->
  plain_types (r_casts r) -> (casts_depth (r_casts r) <= d)%nat ->
  (casts_depth (r_casts r) < collab_depth (r_api r))%nat ->
  In (k, t) (r_casts r) -> Js.lookup k (r_casts r) = Some t ->
  dotfree_keys out ->
  (let* config := config_of (r_api r) in
   let* cast := Body.getCastValue lo config k (r_casts r) VNull in
   let* schema1 := Lodash.set out k cast in
   match Lodash.get (VObj schema1) k VUndefined with
   | VRes value =>
       let* inner := schema_ lo value in Lodash.set schema1 k (VObj inner)
   | _ => Ret schema1
   end) = Ret o' ->
  Lodash.baseSet (Lodash.stringToPath k) (zero_value t) out = Ret o'.
Proof.
  intros [Pnew Psch] PT D C I L Fd.
  destruct (config_of_depth _ _ C) as [config [-> Dc]]. cbn [bind].
  pose proof (casts_depth_in _ _ _ I) as Dt.
  pose proof (plain_types_in _ _ _ PT I) as Pt.
  assert (Nn : Lodash.stringToPath k <> []) by apply stringToPath_nonempty.
  assert (Step : forall v schema1,
            v <> VUndefined ->
            Lodash.set out k v = Ret schema1 ->
            dotfree_keys schema1 /\ Lodash.get (VObj schema1) k VUndefined = v).
  { intros v schema1 Dv S. unfold Lodash.set in S. rewrite castPath_dotfree in S by exact Fd.
    assert (F1 : dotfree_keys schema1).
    { destruct (Lodash.stringToPath k) as [|h rest] eqn:Ek; [contradiction|].
      destruct (baseSet_assigns _ _ _ _ _ S) as [x ->]. apply dotfree_assign; auto.
      apply (stringToPath_segments k). rewrite Ek. now left. }
    split; [exact F1|].
    rewrite lodash_get_split; rewrite ?(get_set_same _ _ _ _ Nn S); auto. }
  destruct t as [name|[cpath cdefs cfill]].
  - rewrite (getCastValue_name_null lo config k name) by auto. cbn [bind].
    destruct (Lodash.set out k (zero_of_name name)) as [schema1| |] eqn:S;
      cbn [bind]; try discriminate.
    destruct (Step _ _ (zero_of_name_defined name) S) as [_ ->].
    unfold Lodash.set in S. rewrite castPath_dotfree in S by exact Fd.
    pose proof (zero_of_name_not_instance name) as NI. simpl zero_value.
    destruct (zero_of_name name); try (intros H; injection H as <-; exact S).
    now destruct (NI r0).
  - rewrite type_depth_class in Dt.
    pose proof (plain_type_class _ _ _ Pt) as Pc.
    destruct (Pnew cpath cdefs cfill config Pc) as [child [N [Hc Ha]]]; [lia | lia |].
    unfold Body.getCastValue. rewrite L. simpl orNull. cbv iota. rewrite N. cbn [bind].
    destruct (Lodash.set out k (VRes child)) as [schema1| |] eqn:S;
      cbn [bind]; try discriminate.
    destruct (Step (VRes child) schema1 ltac:(discriminate) S) as [F1 ->].
    rewrite Psch; rewrite ?Hc, ?Ha; auto; try lia. cbn [bind].
    unfold Lodash.set in *. rewrite castPath_dotfree in * by assumption.
    rewrite (set_set_same _ _ _ _ _ S). now intros H.
Qed.

Section OneLevel.

Variable lo : Lower.
Variable d : nat.
Hypothesis below : provides lo d.

Lemma SCHEMA_plain (r : Resource) :
  plain_casts (r_casts r) -> (casts_depth (r_casts r) <= d)%nat ->
  (casts_depth (r_casts r) < collab_depth (r_api r))%nat ->
  Body.SCHEMA lo r = Ret (schema_of (r_casts r)).
Proof.
  intros P D C. unfold Body.SCHEMA.
  rewrite (build_schema_of _ (r_casts r) []); auto.
  - apply P.
  - intros out k t I. now apply (SCHEMA_step lo d r out k t).
Qed.

Lemma toJSON_total (r : Resource) :
  plain_casts (r_casts r) -> (casts_depth (r_casts r) <= d)%nat ->
  (casts_depth (r_casts r) < collab_depth (r_api r))%nat ->
  exists out, Body.toJSON lo r = Ret out.
Proof.
  intros P D C. rewrite toJSON_apart by exact (plain_separate _ (proj1 P)).
  apply build_total. intros out p I.
  apply in_map_iff in I. destruct I as [[k t] [<- I]]. simpl.
  destruct (plain_paths_lookup _ _ _ (proj1 P) I) as [_ Hdot].
  unfold Body.get. rewrite SCHEMA_plain by assumption.
  destruct (negb (Js.truthy _)); simpl; rewrite set_plain by exact Hdot; eauto.
Qed.

(** The casts a fresh instance holds once [define] has declared them. *)
Lemma define_declares (casts todo : list (string * CastType)) (r : Resource) :
  plain_paths todo ->
  (forall k t, In (k, t) todo -> Js.lookup k casts = Some t) ->
  (forall k t, In (k, t) todo -> Js.lookup k (r_casts r) = None) ->
  exists r',
    forEach (Js.keys todo)
      (fun path r0 =>
         match Js.lookup path casts with
         | Some type => Body.cast path type r0
         | None => (r0, Ret tt)
         end) r = (r', Ret tt) /\
    r_casts r' = (r_casts r ++ todo)%list /\ r_api r' = r_api r /\
    r_attributes r' = r_attributes r.
Proof.
  revert r. induction todo as [|[k t] todo IH]; simpl; intros r P L F.
  - exists r. now rewrite app_nil_r.
  - destruct P as [_ [N P]].
    unfold andThen at 1. rewrite (L k t (or_introl eq_refl)).
    unfold Body.cast at 1, andThen at 1, Body.fillable at 1. cbv beta iota.
    set (r1 := with_fillable _ (with_casts _ r)).
    assert (C1 : r_casts r1 = (r_casts r ++ [(k, t)])%list).
    { unfold r1. destruct r; simpl. apply assign_fresh. apply (F k t). now left. }
    destruct (IH r1 P) as [r' [E [Hc [Ha Hat]]]].
    + intros k' t' I. apply (L k' t'). now right.
    + intros k' t' I. rewrite C1. apply lookup_app_fresh; [apply (F k' t'); now right|].
      exact (lookup_none_neq _ _ _ _ N I).
    + exists r'. split; [exact E|]. rewrite Hc, C1, Ha, Hat, <- app_assoc.
      unfold r1. now destruct r.
Qed.

Lemma fill_null (r : Resource) : Body.fill lo VNull r = (r, Ret tt).
Proof. unfold Body.fill. apply forEach_skip. reflexivity. Qed.

Lemma new_class_plain (cpath : string) (cdefs : list (string * CastType)) (cfill : bool)
    (config : Collab) :
  plain_casts cdefs -> (casts_depth cdefs <= d)%nat ->
  (casts_depth cdefs < collab_depth config)%nat ->
  exists child,
    Body.new_class lo (MkClass cpath cdefs cfill) config VNull = Ret child /\
    r_casts child = cdefs /\ r_api child = config.
Proof.
  intros P D C. unfold Body.new_class. rewrite constructor_initial.
  destruct (config_of_depth config 0) as [cfg [-> _]]; [lia|]. simpl.
  set (this := MkResource _ _ _ _ _ _ _ _).
  unfold Body.define, andThen.
  destruct (define_declares cdefs cdefs this (proj1 P)) as [this1 [-> [Hc [Ha Hat]]]].
  - intros k t I. apply (plain_paths_lookup _ _ _ (proj1 P) I).
  - reflexivity.
  - simpl in Hc, Ha. unfold Body.assigning.
    destruct (toJSON_total this1) as [out ->]; rewrite ?Hc, ?Ha; auto.
    destruct cfill; [rewrite fill_null|]; eexists; (split; [reflexivity|]);
      destruct this1; simpl in *; auto.
Qed.

End OneLevel.

Lemma level_provides (n : nat) : provides (level n) n.
Proof.
  induction n as [|n IH]; split; simpl; try (intros; lia).
  - intros cpath cdefs cfill config P D C.
    apply (new_class_plain (level n) n IH); auto; lia.
  - intros r P D C. apply (SCHEMA_plain (level n) n IH); auto; lia.
Qed.

Lemma SCHEMA_separate (lo : Lower) (d : nat) (r : Resource) (schema : Props) :
  provides lo d ->
  plain_types (r_casts r) -> separate (r_casts r) ->
  (casts_depth (r_casts r) <= d)%nat ->
  (casts_depth (r_casts r) < collab_depth (r_api r))%nat ->
  Body.SCHEMA lo r = Ret schema ->
  forall k t, In (k, t) (r_casts r) ->
    Lodash.get (VObj schema) k VUndefined = zero_value t.
Proof.
  intros Pr PT Sep D C S k t I. unfold Body.SCHEMA in S.
  set (val := fun path => match Js.lookup path (r_casts r) with
                          | Some t => zero_value t
                          | None => VNull
                          end).
  match type of S with build _ ?f _ = _ => set (step := f) in S end.
  assert (W : forall o path o', In path (Js.keys (r_casts r)) -> dotfree_keys o ->
                step o path = Ret o' ->
                val path <> VUndefined /\
                Lodash.baseSet (Lodash.stringToPath path) (val path) o = Ret o').
  { intros o path o' Ip Fd St. apply in_map_iff in Ip. destruct Ip as [[k' t'] [<- I']].
    simpl fst in *. unfold val. rewrite (separate_lookup _ _ _ Sep I').
    split; [apply zero_value_defined|].
    apply (SCHEMA_step_split lo d r o o' k' t' Pr PT D C I'
             (separate_lookup _ _ _ Sep I') Fd St). }
  destruct (build_writes step val (r_casts r) [] schema Sep (Forall_nil _) W S)
    as [Fo [_ [Ap _]]].
  assert (Ik : In k (Js.keys (r_casts r))) by (apply in_map_iff; exists (k, t); auto).
  specialize (Ap k Ik). unfold val in Ap. rewrite (separate_lookup _ _ _ Sep I) in Ap.
  rewrite lodash_get_split; rewrite ?Ap; auto. apply zero_value_defined.
Qed.

(** The schema does not depend on how many levels of classes are at hand
    beyond the nesting of the casts. *)
Lemma SCHEMA_level_irrelevant (n : nat) (r : Resource) :
  plain_casts (r_casts r) ->
  (casts_depth (r_casts r) < collab_depth (r_api r))%nat ->
  (casts_depth (r_casts r) <= n)%nat ->
  Body.SCHEMA (level n) r = OgResource.SCHEMA r.
Proof.
  intros P C D. unfold OgResource.SCHEMA, OgResource.classes.
  rewrite (SCHEMA_plain _ _ (level_provides n)) by assumption.
  now rewrite (SCHEMA_plain _ _ (level_provides _)).
Qed.

(** ** The paths of [toJSON] *)





(** ** The schema of an instance *)

Lemma SCHEMA_step_writes (lo : Lower) (r : Resource) (out o' : Props) (k : string) :
  dotfree_keys out ->
  (let* config := config_of (r_api r) in
   let* cast := Body.getCastValue lo config k (r_casts r) VNull in
   let* schema1 := Lodash.set out k cast in
   match Lodash.get (VObj schema1) k VUndefined with
   | VRes value =>
       let* inner := schema_ lo value in Lodash.set schema1 k (VObj inner)
   | _ => Ret schema1
   end) = Ret o' ->
  exists v, schema_value lo r k = Ret v /\ v <> VUndefined /\
            Lodash.baseSet (Lodash.stringToPath k) v out = Ret o'.
Proof.
  intros Fd. unfold schema_value.
  destruct (config_of (r_api r)) as [config| |]; cbn [bind]; try discriminate.
  assert (Nn : Lodash.stringToPath k <> []) by apply stringToPath_nonempty.
  assert (Step : forall v schema1,
            v <> VUndefined ->
            Lodash.set out k v = Ret schema1 ->
            dotfree_keys schema1 /\ Lodash.get (VObj schema1) k VUndefined = v).
  { intros v schema1 Dv S. unfold Lodash.set in S. rewrite castPath_dotfree in S by exact Fd.
    assert (F1 : dotfree_keys schema1).
    { destruct (Lodash.stringToPath k) as [|h rest] eqn:Ek; [contradiction|].
      destruct (baseSet_assigns _ _ _ _ _ S) as [x ->]. apply dotfree_assign; auto.
      apply (stringToPath_segments k). rewrite Ek. now left. }
    split; [exact F1|].
    rewrite lodash_get_split; rewrite ?(get_set_same _ _ _ _ Nn S); auto. }
  destruct (Js.lookup k (r_casts r)) as [[name|type]|] eqn:L.
  - rewrite (getCastValue_name_null lo config k name) by auto. cbn [bind].
    destruct (Lodash.set out k (zero_of_name name)) as [schema1| |] eqn:S;
      cbn [bind]; try discriminate.
    destruct (Step _ _ (zero_of_name_defined name) S) as [_ ->].
    unfold Lodash.set in S. rewrite castPath_dotfree in S by exact Fd.
    pose proof (zero_of_name_not_instance name) as NI.
    pose proof (zero_of_name_defined name) as ND.
    intros H. exists (zero_of_name name). split; [reflexivity|]. split; [exact ND|].
    revert H. destruct (zero_of_name name) eqn:Z;
      try (intros H; injection H as <-; exact S).
    exfalso. exact (NI _ eq_refl).
  - unfold Body.getCastValue. rewrite L. simpl orNull. cbv iota.
    destruct (new_ lo type config VNull) as [child| |]; cbn [bind]; try discriminate.
    destruct (Lodash.set out k (VRes child)) as [schema1| |] eqn:S;
      cbn [bind]; try discriminate.
    destruct (Step (VRes child) schema1 ltac:(discriminate) S) as [F1 ->].
    destruct (schema_ lo child) as [inner| |]; cbn [bind]; try discriminate.
    unfold Lodash.set in *. rewrite castPath_dotfree in * by assumption.
    rewrite (set_set_same _ _ _ _ _ S). intros H. exists (VObj inner).
    split; [reflexivity|]. split; [discriminate | exact H].
  - unfold Body.getCastValue. rewrite L. simpl orNull. cbn [bind].
    destruct (Lodash.set out k VNull) as [schema1| |] eqn:S; cbn [bind]; try discriminate.
    destruct (Step VNull schema1 ltac:(discriminate) S) as [_ ->].
    unfold Lodash.set in S. rewrite castPath_dotfree in S by exact Fd.
    intros H. injection H as <-. exists VNull. split; [reflexivity|].
    split; [discriminate | exact S].
Qed.

Lemma build_step_invariant (P : Props -> Prop) (step : Props -> string -> Outcome Props)
    (paths : list string) (acc out : Props) (p : string) :
  P acc -> (forall o q o', P o -> step o q = Ret o' -> P o') ->
  build paths step acc = Ret out -> In p paths ->
  exists o o', P o /\ step o p = Ret o'.
Proof.
  intros Pa Inv. revert acc Pa.
  induction paths as [|q paths IH]; simpl; intros acc Pa B I; [tauto|].
  destruct (step acc q) as [o1| |] eqn:E; cbn [bind] in B; try discriminate.
  destruct I as [->|I]; eauto.
Qed.

Lemma SCHEMA_writes (lo : Lower) (r : Resource) (schema : Props) :
  separate (r_casts r) -> Body.SCHEMA lo r = Ret schema ->
  forall path, In path (Js.keys (r_casts r)) ->
    schema_value lo r path = Ret (Lodash.get (VObj schema) path VUndefined).
Proof.
  intros Sep S path I. unfold Body.SCHEMA in S.
  match type of S with build _ ?f _ = _ => set (step := f) in S end.
  set (val := fun p => match schema_value lo r p with Ret v => v | _ => VNull end).
  assert (W : forall o p o', In p (Js.keys (r_casts r)) -> dotfree_keys o ->
                step o p = Ret o' ->
                val p <> VUndefined /\
                Lodash.baseSet (Lodash.stringToPath p) (val p) o = Ret o').
  { intros o p o' _ Fd St.
    destruct (SCHEMA_step_writes lo r o o' p Fd St) as [v [E [D B]]].
    unfold val. rewrite E. auto. }
  destruct (build_writes step val (r_casts r) [] schema Sep (Forall_nil _) W S)
    as [Fo [_ [Ap _]]].
  assert (Inv : forall o q o', dotfree_keys o -> step o q = Ret o' -> dotfree_keys o').
  { intros o q o' Fd St.
    destruct (SCHEMA_step_writes lo r o o' q Fd St) as [v [_ [_ B]]].
    exact (baseSet_dotfree _ _ _ _ Fd B). }
  destruct (build_step_invariant dotfree_keys step (Js.keys (r_casts r)) [] schema path
              (Forall_nil _) Inv S I) as [o [o' [Fd St]]].
  destruct (SCHEMA_step_writes lo r o o' path Fd St) as [v [E [D _]]].
  specialize (Ap path I). unfold val in Ap. rewrite E in Ap.
  rewrite E. f_equal. symmetry.
  rewrite lodash_get_split; rewrite ?Ap; auto.
Qed.

Lemma schema_loses_overlapped_path :
  reachable overlap /\
  In ("a.b", TName "string") (r_casts overlap) /\
  OgResource.getCastValue (CConfig 2 CUndefined) "a.b" (r_casts overlap) VNull
    = Ret (VStr "") /\
  OgResource.SCHEMA overlap = Ret [("a", VStr "")] /\
  Lodash.get (VObj [("a", VStr "")]) "a.b" VUndefined <> VStr "".
Proof.
  split.
  { apply (reach_run (OpCast "a" (TName "string"))).
    apply (reach_run (OpCast "a.b" (TName "string"))).
    apply (reach_constructor transport VUndefined "people"). reflexivity. }
  split; [now left|]. split; [reflexivity|]. split; [reflexivity | discriminate].
Qed.

(** C7, as the code has it.  Coercing [null] or an absent input under a
    declared primitive type gives the zero value of the type: [false], the
    empty string, [0] and [0.0].  When no declared cast path extends
    another by further segments, every [SCHEMA] the getter returns holds
    exactly these values at the cast paths of a primitive type, and at the
    path of a nested Resource type the schema of the child the cast
    creates.  For nested classes that declare single segment paths, on a
    collaborator chain where the nested constructors find a [config] to
    read, that is the zero shape of the class, level after level; and on
    single segment paths the getter returns, the schema being the zero
    values in the order of the casts.  With
    [cast('address', AddressResource)], the schema has [{city: ''}] at
    [address]. *)
Theorem schema_is_zero_shape :
  (forall config key casts name v,
     Js.lookup key casts = Some (TName name) -> v = VNull \/ v = VUndefined ->
     OgResource.getCastValue config key casts v = Ret (zero_of_name name)) /\
  (zero_of_name "boolean" = VBool false /\ zero_of_name "string" = VStr "" /\
   zero_of_name "integer" = VNum (NInt 0) /\ zero_of_name "decimal" = VNum (NInt 0)) /\
  (forall r schema,
     separate (r_casts r) -> OgResource.SCHEMA r = Ret schema ->
     forall path, In path (Js.keys (r_casts r)) ->
       schema_value (OgResource.classes r) r path
         = Ret (Lodash.get (VObj schema) path VUndefined)) /\
  (forall r schema,
     separate (r_casts r) -> plain_types (r_casts r) ->
     (casts_depth (r_casts r) < collab_depth (r_api r))%nat ->
     OgResource.SCHEMA r = Ret schema ->
     forall path type, In (path, type) (r_casts r) ->
       Lodash.get (VObj schema) path VUndefined = zero_value type) /\
  (forall r,
     plain_casts (r_casts r) ->
     (casts_depth (r_casts r) < collab_depth (r_api r))%nat ->
     OgResource.SCHEMA r = Ret (schema_of (r_casts r))) /\
  (forall cpath cdefs cfill config,
     plain_casts cdefs -> (casts_depth cdefs < collab_depth config)%nat ->
     zero_value (TClass (MkClass cpath cdefs cfill)) = VObj (schema_of cdefs) /\
     exists child,
       OgResource.new (MkClass cpath cdefs cfill) config VNull = Ret child /\
       OgResource.SCHEMA child = Ret (schema_of cdefs)) /\
  (exists schema,
     OgResource.SCHEMA empty_household = Ret schema /\
     Lodash.get (VObj schema) "address" VUndefined = VObj [("city", VStr "")]).
Proof.
  split; [|split; [|split; [|split; [|split; [|split]]]]].
  - intros config key casts name v L V. now apply getCastValue_name_null.
  - repeat split.
  - intros r schema Sep S path I. exact (SCHEMA_writes _ r schema Sep S path I).
  - intros r schema Sep PT C S path type I.
    exact (SCHEMA_separate _ _ r schema (level_provides _) PT Sep (le_n _) C S path type I).
  - intros r P C. apply (SCHEMA_plain _ _ (level_provides _)); auto.
  - intros cpath cdefs cfill config P C. split; [reflexivity|].
    unfold OgResource.new. rewrite type_depth_class. simpl Nat.pred.
    destruct (new_class_plain _ _ (level_provides (casts_depth cdefs))
                cpath cdefs cfill config P (le_n _) C) as [child [-> [Hc Ha]]].
    exists child. split; [reflexivity|].
    unfold OgResource.SCHEMA, OgResource.classes. rewrite <- Hc.
    apply (SCHEMA_plain _ _ (level_provides _)); rewrite ?Hc, ?Ha; auto.
  - eexists. split; reflexivity.
Qed.

Lemma schema_is_zero_shape_witness :
  OgResource.SCHEMA lodger
    = Ret [("home", VObj [("floor", VNum (NInt 0));
                          ("address", VObj [("city", VStr "")])])] /\
  Lodash.get (VObj [("home", VObj [("floor", VNum (NInt 0));
                                   ("address", VObj [("city", VStr "")])])])
    "home.address" VUndefined = VObj [("city", VStr "")] /\
  OgResource.SCHEMA empty_household = Ret [("address", VObj [("city", VStr "")])].
Proof.
  split; [reflexivity|]. split.
  - apply (proj1 (proj2 (proj2 (proj2 schema_is_zero_shape))) lodger _
             ltac:(simpl; repeat constructor) ltac:(simpl; repeat split)
             ltac:(simpl; lia) eq_refl "home.address" (TClass AddressResource)).
    right. now left.
  - apply (proj1 (proj2 (proj2 (proj2 (proj2 schema_is_zero_shape)))) empty_household).
    + simpl. repeat split.
    + simpl. lia.
Defined.

(** The hypothesis on the collaborator chain cannot be dropped: over a
    transport whose config store has no [config] of its own, a class nested
    inside a nested class is constructed on [undefined]. *)
Example schema_two_levels_throws :
  OgResource.SCHEMA
    (after (OgResource.cast "street" (TClass StreetResource))
       (constructed transport (CConfig 2 CUndefined) "households"))
  = Throw TypeError.
Proof. reflexivity. Qed.


(** * Further properties of the code *)

(** ** [OgApi.url] *)

Lemma strip_trailing_slash_none (s : string) :
  ends_with_slash s = false -> OgApiClient.strip_trailing_slash s = s.
Proof.
  induction s as [|c s IH]; simpl; auto.
  destruct s as [|c' s']; [intros H; now rewrite H | intros H; now rewrite IH].
Qed.

Lemma strip_trailing_slash_one (s : string) :
  ends_with_slash s = false -> OgApiClient.strip_trailing_slash (s ++ "/") = s.
Proof.
  induction s as [|c s IH]; simpl; auto.
  destruct s as [|c' s']; simpl in *; [reflexivity|].
  intros H. now rewrite IH.
Qed.

Lemma strip_leading_slash_none (s : string) :
  starts_with_slash s = false -> OgApiClient.strip_leading_slash s = s.
Proof. destruct s as [|c s]; simpl; auto. intros H. now rewrite H. Qed.

(** X1.  [url] joins the configured base and the path with exactly one
    slash, whether or not the base ends with a slash and the path starts
    with one. *)
Theorem url_joins_with_one_slash (base path : string) (hs : Value) (h : Props)
    (st : OgApi.State) :
  ends_with_slash base = false -> starts_with_slash path = false ->
  let joined := Ret (base ++ "/" ++ path) in
  OgApiClient.url (OgApiClient.MkInstance (VStr base) hs h st) (VStr path) = joined /\
  OgApiClient.url (OgApiClient.MkInstance (VStr (base ++ "/")) hs h st) (VStr path)
    = joined /\
  OgApiClient.url (OgApiClient.MkInstance (VStr base) hs h st) (VStr ("/" ++ path))
    = joined /\
  OgApiClient.url (OgApiClient.MkInstance (VStr (base ++ "/")) hs h st)
    (VStr ("/" ++ path)) = joined.
Proof.
  intros E S. unfold OgApiClient.url. simpl.
  rewrite strip_trailing_slash_one, strip_trailing_slash_none,
    strip_leading_slash_none by assumption.
  repeat split.
Qed.

Lemma url_joins_with_one_slash_witness :
  OgApiClient.url (OgApiClient.create (VStr "https://api.test/") VUndefined)
    (VStr "/users") = Ret "https://api.test/users".
Proof.
  exact (proj2 (proj2 (proj2
           (url_joins_with_one_slash "https://api.test" "users" VUndefined []
              OgApi.initial eq_refl eq_refl)))).
Defined.

(** ** [OgApi.request]: what reaches [fetch] *)

Lemma lookup_merge (a b : Props) (key : string) :
  distinct_keys b ->
  Js.lookup key (OgApiClient.merge a b) =
  match Js.lookup key b with
  | Some v => Some v
  | None => Js.lookup key a
  end.
Proof.
  revert a. induction b as [|[k v] b IH]; simpl; intros a; auto.
  intros [F D]. rewrite (IH _ D).
  destruct (String.eqb_spec k key) as [->|N].
  - now rewrite F, lookup_assign_same.
  - now rewrite lookup_assign_other.
Qed.

(** X2.  The headers [request] hands to [fetch] are the configured
    [API_HEADERS] overridden, key by key, by the headers argument: a key of
    the argument reads the argument's value, any other key reads the
    configured value, and a key of neither is absent. *)
Theorem request_headers_precedence (this : OgApiClient.Instance)
    (path data : Value) (method : string) (defaults extra : Props)
    (c : OgApiClient.Call) :
  OgApiClient.API_HEADERS this = VObj defaults ->
  distinct_keys extra ->
  OgApiClient.call this path data method (VObj extra) = Ret c ->
  forall key,
    Js.lookup key (OgApiClient.call_headers c) =
    match Js.lookup key extra with
    | Some v => Some v
    | None => Js.lookup key defaults
    end.
Proof.
  intros H D C key. unfold OgApiClient.call in C. rewrite H in C.
  destruct (OgApiClient.url this path); cbn [bind OgApiClient.spread] in C;
    try discriminate.
  injection C as <-. simpl. now apply lookup_merge.
Qed.

Lemma request_headers_precedence_witness :
  let c := OgApiClient.MkCall "https://api.test/users" "POST"
             [("Accept", VStr "application/json"); ("X-App", VStr "og")]
             (Some (VObj [])) in
  Js.lookup "Accept" (OgApiClient.call_headers c) = Some (VStr "application/json") /\
  Js.lookup "X-App" (OgApiClient.call_headers c) = Some (VStr "og").
Proof.
  intros c.
  pose proof (request_headers_precedence
                (OgApiClient.create (VStr "https://api.test")
                   (VObj [("Accept", VStr "text/html"); ("X-App", VStr "og")]))
                (VStr "users") VUndefined "POST"
                [("Accept", VStr "text/html"); ("X-App", VStr "og")]
                [("Accept", VStr "application/json")] c eq_refl
                (conj eq_refl I) eq_refl) as P.
  split; [exact (P "Accept") | exact (P "X-App")].
Defined.

Lemma configure_keeps (b : Builder) (this this' : OgApiClient.Instance) :
  configure b this = Ret this' ->
  OgApiClient.API_URL this' = OgApiClient.API_URL this /\
  OgApiClient.API_HEADERS this' = OgApiClient.API_HEADERS this /\
  OgApiClient.response_ this' = OgApiClient.response_ this.
Proof.
  destruct b; simpl; try (intros H; injection H as <-; now repeat split).
  unfold OgApiClient.token. destruct (Js.toString bearerToken); simpl; try discriminate.
  intros H. injection H as <-. now repeat split.
Qed.

(** X3.  The headers set on the instance with [header], [acceptJson],
    [contentTypeJson], [xMLHttpRequest] and [token] never reach a request:
    after any sequence of these calls, [request] hands [fetch] the same
    call, and so ends with the same outcome and the same [$response]. *)
Theorem builders_never_reach_request (bs : list Builder)
    (this this' : OgApiClient.Instance) :
  configure_all bs this = Ret this' ->
  forall path data method headers,
    OgApiClient.call this' path data method headers
      = OgApiClient.call this path data method headers /\
    forall fetch,
      snd (OgApiClient.request fetch this' path data method headers)
        = snd (OgApiClient.request fetch this path data method headers) /\
      OgApiClient.response_ (fst (OgApiClient.request fetch this' path data method headers))
        = OgApiClient.response_
            (fst (OgApiClient.request fetch this path data method headers)).
Proof.
  intros C path data method headers.
  assert (K : OgApiClient.API_URL this' = OgApiClient.API_URL this /\
              OgApiClient.API_HEADERS this' = OgApiClient.API_HEADERS this /\
              OgApiClient.response_ this' = OgApiClient.response_ this).
  { revert this C. induction bs as [|b bs IH]; simpl; intros this C.
    - now injection C as <-.
    - destruct (configure b this) as [this1| |] eqn:E; cbn [bind] in C; try discriminate.
      destruct (configure_keeps _ _ _ E) as [B1 [B2 B3]].
      destruct (IH _ C) as [A1 [A2 A3]]. repeat split; congruence. }
  destruct K as [Ku [Kh Kr]].
  assert (E : OgApiClient.call this' path data method headers
              = OgApiClient.call this path data method headers).
  { unfold OgApiClient.call, OgApiClient.url. now rewrite Ku, Kh. }
  split; [exact E|]. intros fetch. unfold OgApiClient.request. rewrite E, Kr.
  destruct (OgApiClient.call this path data method headers) as [c| |]; simpl; auto.
  destruct (OgApi.request (OgApiClient.response_ this) (fetch c)); simpl; auto.
Qed.

Lemma builders_never_reach_request_witness :
  OgApiClient.call
    (OgApiClient.header "Authorization" (VStr "Bearer t")
       (OgApiClient.acceptJson (OgApiClient.create (VStr "https://api.test") VUndefined)))
    (VStr "users") VUndefined "POST" VUndefined
  = Ret (OgApiClient.MkCall "https://api.test/users" "POST" [] (Some (VObj []))).
Proof.
  rewrite (proj1 (builders_never_reach_request
                    [BAcceptJson; BHeader "Authorization" (VStr "Bearer t")]
                    (OgApiClient.create (VStr "https://api.test") VUndefined) _ eq_refl
                    (VStr "users") VUndefined "POST" VUndefined)).
  reflexivity.
Defined.

(** X4.  [get(path, query)] never sends its query: the url is built from
    the path alone and a [GET] (or [HEAD]) call has no body, so two queries
    give the same call, the same outcome and the same instance; any other
    method carries the data as its body. *)
Theorem get_never_sends_query (this : OgApiClient.Instance) (path : Value) :
  (forall query query' headers,
     OgApiClient.call this path query "GET" headers
       = OgApiClient.call this path query' "GET" headers) /\
  (forall fetch query query',
     OgApiClient.get fetch this path query = OgApiClient.get fetch this path query') /\
  (forall data method headers c,
     OgApiClient.call this path data method headers = Ret c ->
     OgApiClient.call_body c =
       if OgApiClient.bodiless method then None
       else Some (match data with VUndefined => VObj [] | _ => data end)).
Proof.
  assert (G : forall query query' headers,
            OgApiClient.call this path query "GET" headers
              = OgApiClient.call this path query' "GET" headers).
  { intros query query' headers. unfold OgApiClient.call.
    destruct (OgApiClient.url this path); cbn [bind]; auto. }
  split; [exact G|]. split.
  - intros fetch query query'. unfold OgApiClient.get, OgApiClient.request.
    now rewrite (G query query').
  - intros data method headers c. unfold OgApiClient.call.
    destruct (OgApiClient.url this path); cbn [bind]; try discriminate.
    destruct (OgApiClient.spread (OgApiClient.API_HEADERS this)); cbn [bind];
      try discriminate.
    destruct (OgApiClient.spread _); cbn [bind]; try discriminate.
    intros H. now injection H as <-.
Qed.

Lemma get_never_sends_query_witness :
  OgApiClient.call_body
    (OgApiClient.MkCall "https://api.test/users" "PUT" [] (Some (VObj [("page", VNum (NInt 2))])))
  = Some (VObj [("page", VNum (NInt 2))]).
Proof.
  exact (proj2 (proj2 (get_never_sends_query
           (OgApiClient.create (VStr "https://api.test") VUndefined) (VStr "users")))
           (VObj [("page", VNum (NInt 2))]) "PUT" VUndefined _ eq_refl).
Defined.

(** ** [OgApi.request]: the normalized result *)

(** X5.  A successful response never updates [$response.status]: [request]
    sets [ok], [message] and [data] and keeps the status it had, so after a
    failure with some status and then a success, [$response] has [ok] true
    with the status of the failure.  A [204] gives the empty object as data
    without reading the body. *)
Theorem request_success_keeps_status (st st' : OgApi.State)
    (resp : OgApi.FetchResponse) :
  OgApi.resp_ok resp = true ->
  OgApi.request st (Ret resp) = (st', Ret tt) ->
  status st' = status st /\ ok st' = true /\
  message st' = OgApi.resp_statusText resp /\
  (OgApi.resp_status resp = OgApi.HTTP_NO_CONTENT -> data st' = VObj []) /\
  (forall failure,
     OgApi.resp_ok failure = false ->
     exists st2,
       OgApi.request (fst (OgApi.request st (Ret failure))) (Ret resp) = (st2, Ret tt) /\
       ok st2 = true /\ status st2 = OgApi.resp_status failure).
Proof.
  intros K. unfold OgApi.request. rewrite K.
  destruct (if negb (OgApi.resp_status resp =? OgApi.HTTP_NO_CONTENT)
            then OgApi.resp_json resp else Ret (VObj [])) as [d| |] eqn:E;
    try discriminate.
  intros H. injection H as <-. simpl. repeat split.
  - intros S. rewrite S in E. simpl in E. now injection E as <-.
  - intros failure F. rewrite F. simpl. eexists. repeat split.
Qed.

Lemma request_success_keeps_status_witness :
  status (fst (OgApi.request
                 (fst (OgApi.request OgApi.initial
                         (Ret (OgApi.MkFetchResponse false 419 "Expired" (Ret VNull)))))
                 (Ret (OgApi.MkFetchResponse true 200 "OK" (Ret (VObj []))))))
  = 419.
Proof.
  exact (proj1 (request_success_keeps_status
           (fst (OgApi.request OgApi.initial
                   (Ret (OgApi.MkFetchResponse false 419 "Expired" (Ret VNull)))))
           _ (OgApi.MkFetchResponse true 200 "OK" (Ret (VObj []))) eq_refl eq_refl)).
Defined.

(** ** [fill] and [set]: what they leave alone *)

Lemma includes_In (path : string) (l : list string) :
  Body.includes path l = true <-> In path l.
Proof.
  unfold Body.includes. rewrite existsb_exists. split.
  - intros [x [I E]]. apply String.eqb_eq in E. now subst.
  - intros I. exists path. split; [exact I | apply String.eqb_refl].
Qed.

Lemma forEach_invariant {A} (P : Resource -> Prop) (xs : list A) (body : A -> Method)
    (r : Resource) :
  (forall x r0, In x xs -> P r0 -> P (fst (body x r0))) ->
  P r -> P (fst (forEach xs body r)).
Proof.
  revert r. induction xs as [|x xs IH]; simpl; intros r B Pr; auto.
  unfold andThen. specialize (B x r (or_introl eq_refl) Pr) as B1.
  destruct (body x r) as [r1 [[]|e|]]; simpl in *; try exact B1.
  apply IH; [intros y r0 I; apply B; now right | exact B1].
Qed.

Lemma castPath_head (path q : string) (object : Value) :
  Lodash.has_dot q = false ->
  hd_error (Lodash.stringToPath path) <> Some q ->
  hd_error (Lodash.castPath path object) <> Some q.
Proof.
  intros Dq H. unfold Lodash.castPath.
  destruct (Lodash.has_dot path) eqn:Dp.
  - assert (N : hd_error [path] <> Some q).
    { simpl. intros E. injection E as ->. congruence. }
    destruct object; auto. destruct (Js.lookup path props); auto.
  - now rewrite stringToPath_plain in H.
Qed.

Lemma set_frame (lo : Lower) (path q : string) (value : Value) (r : Resource) :
  Lodash.has_dot q = false ->
  hd_error (Lodash.stringToPath path) <> Some q ->
  stored (fst (Body.set lo path value r)) q = stored r q.
Proof.
  intros Dq H. unfold Body.set.
  destruct (negb (Body.includes path (r_fillable r))); [reflexivity|].
  unfold Body.assigning.
  destruct (let* config := config_of (r_api r) in _) as [a| |] eqn:E; try reflexivity.
  simpl. destruct (config_of (r_api r)); cbn [bind] in E; try discriminate.
  destruct (Body.getCastValue lo a0 path (r_casts r) value); cbn [bind] in E;
    try discriminate.
  unfold Lodash.set in E.
  pose proof (castPath_head path q (VObj (r_attributes r)) Dq H) as Hh.
  pose proof (castPath_nonempty path (VObj (r_attributes r))) as Nn.
  destruct (Lodash.castPath path (VObj (r_attributes r))) as [|h rest]; [contradiction|].
  destruct (baseSet_assigns _ _ _ _ _ E) as [x ->].
  unfold stored. destruct r as [api resp f c at_ k s p]. simpl in *.
  rewrite !get_plain by exact Dq. unfold Js.prop.
  rewrite lookup_assign_other; [reflexivity|].
  intros ->. now apply Hh.
Qed.

(** X6.  A path outside the fillable list is out of reach of both write
    paths: [set] on it returns the instance as it was, and neither [fill]
    nor a [set] on a fillable path changes what is stored at it, however
    they end.  The path is a single segment that is not the first segment
    of a fillable path. *)
Theorem unfillable_path_is_untouched (r : Resource) (q : string) :
  Lodash.has_dot q = false ->
  (forall p, In p (r_fillable r) -> hd_error (Lodash.stringToPath p) <> Some q) ->
  (forall value, OgResource.set q value r = (r, Ret tt)) /\
  (forall attributes, stored (fst (OgResource.fill attributes r)) q = stored r q) /\
  (forall p value, In p (r_fillable r) ->
     stored (fst (OgResource.set p value r)) q = stored r q).
Proof.
  intros Dq H. split; [|split].
  - intros value. unfold OgResource.set, Body.set.
    destruct (Body.includes q (r_fillable r)) eqn:I; [|reflexivity].
    apply includes_In in I. specialize (H q I).
    rewrite stringToPath_plain in H by exact Dq. now destruct H.
  - intros attributes. unfold OgResource.fill, Body.fill.
    set (lo := OgResource.classes r).
    apply (forEach_invariant
             (fun r0 => stored r0 q = stored r q) (r_fillable r)); [|reflexivity].
    intros p r0 I E. destruct (negb (Js.truthy _)); [exact E|].
    rewrite set_frame; auto.
  - intros p value I. unfold OgResource.set. apply set_frame; auto.
Qed.

Lemma unfillable_path_is_untouched_witness :
  stored (fst (OgResource.fill (VObj [("nick", VStr "z"); ("name", VStr "Bea")]) ana)) "nick"
    = stored ana "nick" /\
  OgResource.set "nick" (VStr "z") ana = (ana, Ret tt).
Proof.
  destruct (unfillable_path_is_untouched ana "nick" eq_refl) as [S [F _]].
  - intros p [<-|[<-|[]]]; discriminate.
  - split; [apply F | apply S].
Defined.

(** ** [set] then read *)

Lemma orNull_defined (v : Value) : orNull v <> VUndefined.
Proof. destruct v; discriminate. Qed.

Lemma getCastValue_defined (lo : Lower) (config : Collab) (key : string)
    (casts : list (string * CastType)) (value cast : Value) :
  Body.getCastValue lo config key casts value = Ret cast -> cast <> VUndefined.
Proof.
  unfold Body.getCastValue. pose proof (orNull_defined value) as N.
  destruct (Js.lookup key casts) as [[name|type]|].
  - destruct name as [|a name]; [intros H; now injection H as <-|].
    repeat match goal with
           | |- context [if ?b then _ else _] => destruct b
           | |- context [bind ?m _] => destruct m; cbn [bind]
           end;
      intros H; try discriminate; injection H as <-; auto; try discriminate.
    all: unfold Js.or_zero; destruct (Js.truthy _); discriminate.
  - destruct (new_ lo type config (orNull value)); cbn [bind]; try discriminate.
    intros H. injection H as <-. discriminate.
  - intros H. now injection H as <-.
Qed.

(** X7.  What [set] writes on a fillable single-segment path is what the
    casting engine makes of the value, and it can be read back: it is the
    stored value, [filled] is true unless it is [null], and [get] returns
    it when it is truthy.  For a falsy cast value [get] answers from the
    schema instead. *)
Theorem set_then_read (r r' : Resource) (path : string) (value : Value) :
  Lodash.has_dot path = false ->
  Body.includes path (r_fillable r) = true ->
  OgResource.set path value r = (r', Ret tt) ->
  exists config cast,
    config_of (r_api r) = Ret config /\
    OgResource.getCastValue config path (r_casts r) value = Ret cast /\
    stored r' path = cast /\
    OgResource.filled r' path = negb (Lodash.nullish cast) /\
    forall defaultValue,
      OgResource.get r' path defaultValue =
        if Js.truthy cast then Ret cast
        else let* schema := OgResource.SCHEMA r in
             Ret (Lodash.get (VObj schema) path (orNull defaultValue)).
Proof.
  intros D I. unfold OgResource.set, Body.set, Body.assigning. rewrite I. simpl negb.
  cbv iota. unfold OgResource.getCastValue. fold (OgResource.classes r).
  destruct (config_of (r_api r)) as [config| |]; cbn [bind]; try discriminate.
  destruct (Body.getCastValue (OgResource.classes r) config path (r_casts r) value)
    as [cast| |] eqn:G; cbn [bind]; try discriminate.
  rewrite set_plain by exact D. intros H. injection H as <-.
  exists config, cast. split; [reflexivity|]. split; [exact G|].
  assert (S : stored (with_attributes (Js.assign path cast (r_attributes r)) r) path = cast).
  { unfold stored. destruct r; simpl. rewrite get_plain by exact D.
    unfold Js.prop. rewrite lookup_assign_same. now destruct cast. }
  assert (F : forall d, d <> VUndefined ->
            Lodash.get (VObj (Js.assign path cast (r_attributes r))) path d =
            match cast with VUndefined => d | _ => cast end).
  { intros d _. rewrite get_plain by exact D. unfold Js.prop.
    rewrite lookup_assign_same. now destruct cast. }
  split; [exact S|]. split.
  - unfold OgResource.filled, Body.filled. destruct r; simpl in *.
    rewrite F by discriminate. now destruct cast.
  - intros d. pose proof (getCastValue_defined _ _ _ _ _ _ G) as Dc.
    unfold OgResource.get, Body.get.
    replace (OgResource.classes (with_attributes _ r)) with (OgResource.classes r)
      by (now destruct r).
    replace (Body.SCHEMA (OgResource.classes r) (with_attributes _ r))
      with (OgResource.SCHEMA r) by (now destruct r).
    replace (r_attributes (with_attributes (Js.assign path cast (r_attributes r)) r))
      with (Js.assign path cast (r_attributes r)) by (now destruct r).
    rewrite F by apply orNull_defined.
    assert (E : match cast with VUndefined => orNull d | _ => cast end = cast)
      by (now destruct cast).
    rewrite E. now destruct (Js.truthy cast).
Qed.

Lemma set_then_read_witness :
  exists config cast,
    config_of (r_api ana) = Ret config /\
    OgResource.getCastValue config "age" (r_casts ana) (VStr "41 years") = Ret cast /\
    stored (fst (OgResource.set "age" (VStr "41 years") ana)) "age" = cast.
Proof.
  destruct (set_then_read ana (fst (OgResource.set "age" (VStr "41 years") ana))
              "age" (VStr "41 years") eq_refl eq_refl eq_refl)
    as [config [cast [A [B [C _]]]]].
  exists config, cast. auto.
Defined.

(** ** The casting engine: kinds *)

Lemma digits_printed (d d' : Decimal.uint) (seen : bool) :
  Js.digits (NilEmpty.string_of_uint d) (Z.of_N (DecimalPos.Unsigned.of_lu d')) seen =
    (Z.of_N (DecimalPos.Unsigned.of_lu (Decimal.revapp d d')),
     match d with Decimal.Nil => seen | _ => true end, EmptyString).
Proof.
  revert d' seen.
  induction d as [|d IH|d IH|d IH|d IH|d IH|d IH|d IH|d IH|d IH|d IH]; intros d' seen;
    [reflexivity|..];
    cbn [NilEmpty.string_of_uint Js.digits Decimal.revapp];
    match goal with
    | |- context [Js.digit ?c] =>
        change (Js.digit c) with (Some (Js.code c - 48)); cbv iota
    end;
    match goal with
    | |- Js.digits _ ?acc true = (Z.of_N (DecimalPos.Unsigned.of_lu (Decimal.revapp d ?e)), _, _) =>
        replace acc with (Z.of_N (DecimalPos.Unsigned.of_lu e))
          by (cbn [DecimalPos.Unsigned.of_lu]; unfold Js.code;
              match goal with
              | |- context [nat_of_ascii ?c] =>
                  let v := eval vm_compute in (Z.of_nat (nat_of_ascii c)) in
                  change (Z.of_nat (nat_of_ascii c)) with v
              end; lia)
    end;
    rewrite IH; now destruct d.
Qed.

Lemma head_printed (d : Decimal.uint) :
  d <> Decimal.Nil ->
  NilZero.string_of_uint d = NilEmpty.string_of_uint d /\
  Js.trimStart (NilEmpty.string_of_uint d) = Ret (NilEmpty.string_of_uint d) /\
  Js.sign_of (NilEmpty.string_of_uint d) = (1, NilEmpty.string_of_uint d) /\
  Js.digits (NilEmpty.string_of_uint d) 0 false =
    (Z.of_N (Pos.of_uint d), true, EmptyString).
Proof.
  intros N. repeat split.
  - now destruct d.
  - destruct d; [congruence|..]; reflexivity.
  - destruct d; [congruence|..]; reflexivity.
  - change 0 with (Z.of_N (DecimalPos.Unsigned.of_lu Decimal.Nil)).
    rewrite digits_printed, DecimalPos.Unsigned.of_uint_alt.
    now destruct d.
Qed.

(** The decimal numeral that [String(z)] prints parses back to [z]. *)
Lemma parse_printed (z : Z) :
  Js.safe z = true ->
  Js.parseInt (VNum (NInt z)) = Ret (NInt z) /\
  Js.parseFloat (VNum (NInt z)) = Ret (NInt z).
Proof.
  intros S. unfold Js.parseInt, Js.parseFloat, Js.toString. rewrite S. cbn [bind].
  unfold Js.parseInt_string, Js.parseFloat_string.
  destruct z as [|p|p].
  - split; reflexivity.
  - destruct (head_printed (Pos.to_uint p) (DecimalPos.Unsigned.to_uint_nonnil p))
      as (E & T & G & D).
    cbn [Z.to_int NilZero.string_of_int]. rewrite E, T. cbn [bind]. rewrite G, D.
    rewrite DecimalPos.Unsigned.of_to. unfold Js.number.
    change (1 * Z.of_N (N.pos p)) with (Z.pos p). rewrite S. split; reflexivity.
  - destruct (head_printed (Pos.to_uint p) (DecimalPos.Unsigned.to_uint_nonnil p))
      as (E & T & G & D).
    cbn [Z.to_int NilZero.string_of_int]. rewrite E.
    change (Js.trimStart (String "-" (NilEmpty.string_of_uint (Pos.to_uint p))))
      with (Ret (String "-" (NilEmpty.string_of_uint (Pos.to_uint p)))).
    cbn [bind Js.sign_of]. rewrite D.
    rewrite DecimalPos.Unsigned.of_to. unfold Js.number.
    change (-1 * Z.of_N (N.pos p)) with (Z.neg p). rewrite S. split; reflexivity.
Qed.

Lemma parsed_is_safe (s : string) (z : Z) :
  (Js.parseInt_string s = Ret (NInt z) -> Js.safe z = true) /\
  (Js.parseFloat_string s = Ret (NInt z) -> Js.safe z = true).
Proof.
  unfold Js.parseInt_string, Js.parseFloat_string, Js.number.
  destruct (Js.trimStart s) as [t| |]; cbn [bind]; [|split; discriminate..].
  destruct (Js.sign_of t) as [sg u]. destruct (Js.digits u 0 false) as [[n []] rest].
  - split.
    + destruct (Js.safe (sg * n)) eqn:S; [|discriminate]. congruence.
    + destruct (_ || _); [discriminate|].
      destruct (Js.safe (sg * n)) eqn:S; [|discriminate]. congruence.
  - split; [discriminate|]. destruct (_ || _); discriminate.
Qed.

Lemma or_zero_safe (n : Num) :
  (forall z, n = NInt z -> Js.safe z = true) ->
  exists z, Js.or_zero n = VNum (NInt z) /\ Js.safe z = true /\
            Js.or_zero (NInt z) = VNum (NInt z).
Proof.
  intros S. destruct n as [|z].
  - now exists 0.
  - unfold Js.or_zero. simpl. destruct (z =? 0) eqn:E; simpl.
    + now exists 0.
    + exists z. rewrite E. simpl. auto.
Qed.



(** ** [fill]: sources without a truthy value *)

(** X9.  [fill] only writes truthy values: a source that has no truthy
    value at any fillable path leaves the instance exactly as it was.  So
    do [fill(null)], [fill(undefined)] and [fill({})]. *)
Theorem fill_needs_a_truthy_value (r : Resource) :
  (forall attributes,
     (forall path, In path (r_fillable r) ->
        Js.truthy (Lodash.get attributes path VNull) = false) ->
     OgResource.fill attributes r = (r, Ret tt)) /\
  OgResource.fill VNull r = (r, Ret tt) /\
  OgResource.fill VUndefined r = (r, Ret tt) /\
  OgResource.fill (VObj []) r = (r, Ret tt).
Proof.
  assert (F : forall attributes,
            (forall path, In path (r_fillable r) ->
               Js.truthy (Lodash.get attributes path VNull) = false) ->
            OgResource.fill attributes r = (r, Ret tt)).
  { intros attributes H. unfold OgResource.fill, Body.fill. apply forEach_skip.
    intros path I. now rewrite (H path I). }
  split; [exact F|]. repeat split; apply F; intros path _; try reflexivity.
  unfold Lodash.get. simpl Lodash.nullish. cbv iota.
  pose proof (castPath_nonempty path (VObj [])) as N.
  destruct (Lodash.castPath path (VObj [])) as [|k rest]; [contradiction|].
  simpl. now destruct rest.
Qed.

Lemma fill_needs_a_truthy_value_witness :
  OgResource.fill (VObj [("name", VStr ""); ("age", VNum (NInt 0))]) ana = (ana, Ret tt).
Proof.
  apply (proj1 (fill_needs_a_truthy_value ana)).
  intros path [<-|[<-|[]]]; reflexivity.
Defined.

(** ** [get] and [toJSON]: never [undefined] *)

Lemma baseSet_assigns_defined (key : string) (rest : list string) (v : Value)
    (nested nested' : Props) :
  v <> VUndefined -> Lodash.baseSet (key :: rest) v nested = Ret nested' ->
  exists x, x <> VUndefined /\ nested' = Js.assign key x nested.
Proof.
  intros D. destruct rest as [|next rest'].
  - simpl. intros S. injection S as <-. eauto.
  - rewrite baseSet_step.
    destruct (below nested key next) as [inner| |]; cbn [bind]; try discriminate.
    destruct (Lodash.baseSet (next :: rest') v inner) as [inner'| |]; cbn [bind];
      try discriminate.
    intros S. injection S as <-. exists (VObj inner'). split; [discriminate | reflexivity].
Qed.

Lemma assign_values (P : Value -> Prop) (key : string) (x : Value) (props : Props) :
  P x -> Forall (fun kv => P (snd kv)) props ->
  Forall (fun kv => P (snd kv)) (Js.assign key x props).
Proof.
  intros Px. induction 1 as [|[k v] l Pv F IH]; simpl.
  - now repeat constructor.
  - destruct (k =? key)%string; constructor; auto.
Qed.

(** X10.  [get] never answers [undefined]: a path with nothing stored and
    nothing in the schema reads the default, [null] when none is given.
    And no key of a [toJSON()] output holds [undefined], so serializing the
    output drops none of them. *)
Theorem get_is_never_undefined (r : Resource) :
  (forall path defaultValue v,
     OgResource.get r path defaultValue = Ret v -> v <> VUndefined) /\
  (forall path defaultValue schema,
     stored r path = VUndefined -> OgResource.SCHEMA r = Ret schema ->
     Lodash.get (VObj schema) path VUndefined = VUndefined ->
     OgResource.get r path defaultValue = Ret (orNull defaultValue)) /\
  (forall out, OgResource.toJSON r = Ret out ->
     Forall (fun kv => snd kv <> VUndefined) out).
Proof.
  split; [|split].
  - intros path d v. apply get_defined.
  - intros path d schema S Sc U. unfold OgResource.get, Body.get.
    fold (OgResource.SCHEMA r). rewrite Sc. cbn [bind].
    assert (A : forall o, Lodash.get o path VUndefined = VUndefined ->
                Lodash.get o path (orNull d) = orNull d).
    { intros o. unfold Lodash.get.
      destruct (if Lodash.nullish o then VUndefined else Lodash.baseGet _ _);
        try discriminate. reflexivity. }
    rewrite (A _ S), (A _ U). now destruct (Js.truthy (orNull d)).
  - intros out. unfold OgResource.toJSON.
    apply (toJSON_out_ind (OgResource.classes r) r
             (fun o => Forall (fun kv => snd kv <> VUndefined) o)); [apply Forall_nil|].
    intros o p v o' _ Dv S Fo. unfold Lodash.set in S.
    pose proof (castPath_nonempty p (VObj o)) as N.
    destruct (Lodash.castPath p (VObj o)) as [|k rest]; [contradiction|].
    destruct (baseSet_assigns_defined _ _ _ _ _ Dv S) as [x [Dx ->]].
    now apply (assign_values (fun v => v <> VUndefined)).
Qed.

Lemma get_is_never_undefined_witness :
  OgResource.get ana "nick" VUndefined = Ret VNull /\
  OgResource.get ana "nick" (VStr "none") = Ret (VStr "none").
Proof.
  split.
  - exact (proj1 (proj2 (get_is_never_undefined ana)) "nick" VUndefined
             [("name", VStr ""); ("age", VNum (NInt 0))] eq_refl eq_refl eq_refl).
  - exact (proj1 (proj2 (get_is_never_undefined ana)) "nick" (VStr "none")
             [("name", VStr ""); ("age", VNum (NInt 0))] eq_refl eq_refl eq_refl).
Defined.

(** ** [reset]: the snapshot is a fixed point *)

Lemma build_ext (f g : Props -> string -> Outcome Props) (paths : list string)
    (acc : Props) :
  (forall o p, In p paths -> f o p = g o p) ->
  build paths f acc = build paths g acc.
Proof.
  revert acc. induction paths as [|p paths IH]; simpl; intros acc E; auto.
  rewrite (E acc p (or_introl eq_refl)).
  destruct (g acc p); cbn [bind]; auto.
Qed.

(** What [toJSON] holds at a cast path is what [get] returned for it. *)
Lemma toJSON_holds (lo : Lower) (r : Resource) (out : Props) :
  separate (r_casts r) -> Body.toJSON lo r = Ret out ->
  forall path, In path (Js.keys (r_casts r)) ->
    exists v, Body.get lo r path VNull = Ret v /\
              Lodash.get (VObj out) path VNull = v.
Proof.
  intros Sep T path I. rewrite toJSON_apart in T by exact Sep.
  set (step := fun (o : Props) (p : string) =>
                 let* v := Body.get lo r p VNull in Lodash.set o p v).
  change (build (Js.keys (r_casts r)) step [] = Ret out) in T.
  set (val := fun p => match Body.get lo r p VNull with Ret v => v | _ => VNull end).
  assert (W : forall o p o', In p (Js.keys (r_casts r)) -> dotfree_keys o ->
                step o p = Ret o' ->
                val p <> VUndefined /\
                Lodash.baseSet (Lodash.stringToPath p) (val p) o = Ret o').
  { intros o p o' _ Fd. unfold val, step.
    destruct (Body.get lo r p VNull) as [v| |] eqn:G; cbn [bind]; try discriminate.
    unfold Lodash.set. rewrite castPath_dotfree by exact Fd.
    intros S. split; [exact (get_defined _ _ _ _ _ G) | exact S]. }
  destruct (build_writes step val (r_casts r) [] out Sep (Forall_nil _) W T)
    as [Fo [_ [Ap _]]].
  destruct (build_step_returned _ _ _ _ _ T I) as [o [o' St]]. unfold step in St.
  destruct (Body.get lo r path VNull) as [v| |] eqn:G; try discriminate.
  exists v. split; [reflexivity|].
  specialize (Ap path I). unfold val in Ap. rewrite G in Ap.
  pose proof (get_defined _ _ _ _ _ G) as D.
  rewrite get_default_unused; rewrite lodash_get_split; rewrite ?Ap; auto.
Qed.

Lemma get_after_reset (lo : Lower) (r : Resource) (out : Props) (path : string)
    (v : Value) :
  Body.get lo r path VNull = Ret v ->
  Lodash.get (VObj out) path VNull = v ->
  Body.get lo (with_attributes out r) path VNull = Ret v.
Proof.
  unfold Body.get, Body.SCHEMA. destruct r as [api resp f c at_ k s p]. simpl.
  intros G E. rewrite E.
  destruct (Js.truthy v) eqn:Tv; simpl; [reflexivity|].
  destruct (negb (Js.truthy (Lodash.get (VObj at_) path VNull))) eqn:T0; [exact G|].
  injection G as G. rewrite G in T0. now rewrite Tv in T0.
Qed.

(** X11.  The snapshot [reset()] takes is a fixed point: when no cast path
    extends another, a second [reset()] changes nothing, and [toJSON()] of
    the snapshot is the snapshot. *)
Theorem reset_is_idempotent (r r1 : Resource) :
  separate (r_casts r) ->
  OgResource.reset r = (r1, Ret tt) ->
  OgResource.toJSON r1 = Ret (r_attributes r1) /\
  OgResource.reset r1 = (r1, Ret tt).
Proof.
  intros Sep. unfold OgResource.reset, Body.reset, Body.assigning.
  destruct (Body.toJSON (OgResource.classes r) r) as [out| |] eqn:T; try discriminate.
  intros H. injection H as <-.
  assert (E : OgResource.toJSON (with_attributes out r) = Ret out).
  { unfold OgResource.toJSON.
    replace (OgResource.classes (with_attributes out r)) with (OgResource.classes r)
      by (now destruct r).
    rewrite <- T.
    rewrite (toJSON_apart _ r) by exact Sep.
    rewrite (toJSON_apart _ (with_attributes out r)) by (now destruct r).
    replace (r_casts (with_attributes out r)) with (r_casts r) by (now destruct r).
    apply build_ext. intros o p I.
    destruct (toJSON_holds _ r out Sep T p I) as [v [G L]].
    now rewrite (get_after_reset _ r out p v G L), G. }
  assert (A : r_attributes (with_attributes out r) = out) by (now destruct r).
  split; [now rewrite A|].
  unfold OgResource.toJSON in E. rewrite E. f_equal. now destruct r.
Qed.

Lemma reset_is_idempotent_witness :
  r_attributes tenant = [("name", VStr "Ana")] /\
  OgResource.toJSON
    (with_attributes [("address", VObj [("city", VStr "")]); ("name", VStr "Ana")] tenant)
  = Ret [("address", VObj [("city", VStr "")]); ("name", VStr "Ana")] /\
  OgResource.reset
    (with_attributes [("address", VObj [("city", VStr "")]); ("name", VStr "Ana")] tenant)
  = (with_attributes [("address", VObj [("city", VStr "")]); ("name", VStr "Ana")] tenant,
     Ret tt).
Proof.
  split; [reflexivity|].
  assert (Sep : separate (r_casts tenant)) by (simpl; repeat constructor).
  exact (reset_is_idempotent tenant
           (with_attributes [("address", VObj [("city", VStr "")]); ("name", VStr "Ana")]
              tenant) Sep eq_refl).
Defined.

(** ** [save]: after the request *)










(** ** [fill], [set] and [reset] write [$attributes] only *)

Lemma with_attributes_own (r : Resource) : r = with_attributes (r_attributes r) r.
Proof. now destruct r. Qed.

Lemma andThen_only_attributes (m1 m2 : Method) :
  only_attributes m1 -> only_attributes m2 -> only_attributes (andThen m1 m2).
Proof.
  intros K1 K2 r. unfold andThen. specialize (K1 r).
  destruct (m1 r) as [r1 [[]|e|]]; simpl in *; auto.
  rewrite (K2 r1). generalize (r_attributes (fst (m2 r1))). intros a.
  rewrite K1. now destruct r.
Qed.

Lemma forEach_only_attributes {A} (xs : list A) (body : A -> Method) :
  (forall x, only_attributes (body x)) -> only_attributes (forEach xs body).
Proof.
  intros K. induction xs as [|x xs IH]; simpl.
  - intros r. apply with_attributes_own.
  - apply andThen_only_attributes; auto.
Qed.

Lemma assigning_only_attributes (e : Resource -> Outcome Props) :
  only_attributes (Body.assigning e with_attributes).
Proof.
  intros r. unfold Body.assigning. destruct (e r); simpl;
    try apply with_attributes_own. now destruct r.
Qed.

Lemma set_only_attributes (lo : Lower) (path : string) (value : Value) :
  only_attributes (Body.set lo path value).
Proof.
  intros r. unfold Body.set.
  destruct (negb (Body.includes path (r_fillable r))); [apply with_attributes_own|].
  apply assigning_only_attributes.
Qed.

Lemma fill_only_attributes (lo : Lower) (attributes : Value) :
  only_attributes (Body.fill lo attributes).
Proof.
  intros r. unfold Body.fill. apply forEach_only_attributes. intros path r0.
  destruct (negb (Js.truthy _)); [apply with_attributes_own | apply set_only_attributes].
Qed.


(** ** [save]: an instance is saved once *)

Lemma save_returned_collaborators (r r' : Resource) (st st' : OgApi.State)
    (fetched : Outcome OgApi.FetchResponse) :
  OgResource.save st fetched r = (r', st', Ret tt) ->
  exists id cfg config last,
    r_api r = CApi id cfg true /\ r_response r = RWrapper config last.
Proof.
  destruct r as [api x f c a k s p].
  unfold OgResource.save, Body.save, andThen, Body.api_abort. simpl r_api.
  destruct api as [| |id cfg []]; try discriminate.
  unfold Body._statusReset, Body.response_clear.
  destruct x as [config last|v]; simpl; try discriminate.
  intros _. now exists id, cfg, config, last.
Qed.

Lemma save_returned_state (r r' : Resource) (st st' : OgApi.State)
    (fetched : Outcome OgApi.FetchResponse) :
  OgResource.save st fetched r = (r', st', Ret tt) ->
  exists (payload : Value) (a : Props),
    r' = idle (with_attributes a (with_response (RPlain payload) r)) /\
    (exists id cfg, r_api r = CApi id cfg true) /\
    OgApi.post st fetched = (st', Ret payload) /\
    Lodash.nullish payload = false /\
    Js.truthy (Js.prop payload "failed") = false.
Proof.
  intros H. destruct (save_returned_collaborators _ _ _ _ _ H)
    as (id & cfg & config & last & A & W).
  assert (S : exists payload store,
             Body.save_reduce (OgResource.classes r)
               (received config payload (with_attributes store r))
             = (r', Ret tt) /\
             OgApi.post st fetched = (st', Ret payload)).
  { destruct (Body.toJSON_run (OgResource.classes r) r) as [[body store]|e|] eqn:V.
    - assert (T : OgResource.toJSON r = Ret body)
        by (unfold OgResource.toJSON, Body.toJSON; now rewrite V).
      assert (W' : OgResource.toJSON_store r = Ret store)
        by (unfold OgResource.toJSON_store, Body.toJSON_store; now rewrite V).
      rewrite (save_unfolds r st fetched id cfg config last body store A W T W') in H.
      destruct (OgApi.post st fetched) as [st'' [payload|e|]]; try discriminate.
      exists payload, store.
      destruct (Body.save_reduce _ _) as [r3 o]. split; congruence.
    - exfalso. revert H V. destruct r as [api x f c a k s p]. simpl in A, W. subst.
      unfold OgResource.save, OgResource.classes in *.
      simpl r_casts in *. unfold Body.save, andThen. simpl.
      unfold Body.save_post. simpl r_api. cbv iota.
      rewrite (toJSON_run_reads _ (MkResource (CApi id cfg true) (RWrapper config last)
                                     f c a k s p)) by reflexivity.
      intros H V. rewrite V in H. discriminate.
    - exfalso. revert H V. destruct r as [api x f c a k s p]. simpl in A, W. subst.
      unfold OgResource.save, OgResource.classes in *.
      simpl r_casts in *. unfold Body.save, andThen. simpl.
      unfold Body.save_post. simpl r_api. cbv iota.
      rewrite (toJSON_run_reads _ (MkResource (CApi id cfg true) (RWrapper config last)
                                     f c a k s p)) by reflexivity.
      intros H V. rewrite V in H. discriminate. }
  destruct S as (payload & store & S & P). exists payload.
  unfold Body.save_reduce in S.
  assert (Rr : r_response (received config payload (with_attributes store r))
               = RPlain payload) by (now destruct r).
  rewrite Rr in S. simpl OgResponse.failed in S.
  destruct (Lodash.nullish payload); [discriminate|].
  destruct (Js.truthy (Js.prop payload "failed")).
  - exfalso. revert S. unfold andThen, Body._statusReset, Body.throwing.
    destruct (let* m := _ in _); discriminate.
  - unfold andThen in S.
    pose proof (fill_only_attributes (OgResource.classes r) (Js.prop payload "data")
                  (received config payload (with_attributes store r))) as F.
    destruct (Body.fill _ _ _) as [r3 [[]|e|]]; try discriminate.
    simpl in F. exists (r_attributes r3).
    split; [|split; [now exists id, cfg | auto]].
    unfold Body.set_creating in S. injection S as <-.
    rewrite F. now destruct r.
Qed.

Lemma post_returns_data (st st' : OgApi.State) (fetched : Outcome OgApi.FetchResponse)
    (payload : Value) :
  OgApi.post st fetched = (st', Ret payload) -> payload = data st'.
Proof.
  unfold OgApi.post. destruct (OgApi.request st fetched) as [st1 [[]|e|]]; simpl;
    intros H; inversion H; reflexivity.
Qed.

(** X17.  An instance is saved once.  A [save] that returned has replaced
    the Response Wrapper in [$response] by the plain payload, which has no
    [clear]: every later [save] and every later [abort] on that instance
    throws a [TypeError] before any request is issued and changes
    nothing. *)
Theorem save_is_single_use (r r' : Resource) (st st' : OgApi.State)
    (fetched : Outcome OgApi.FetchResponse) :
  OgResource.save st fetched r = (r', st', Ret tt) ->
  (exists payload, r_response r' = RPlain payload) /\
  (forall st2 fetched2, OgResource.save st2 fetched2 r' = (r', st2, Throw TypeError)) /\
  OgResource.abort r' = (r', Throw TypeError).
Proof.
  intros H.
  destruct (save_returned_state _ _ _ _ _ H) as (payload & a & -> & (id & cfg & A) & _).
  destruct r as [api x f c a0 k s p]. simpl in A. subst api.
  split; [now exists payload|]. split; [intros st2 fetched2|]; reflexivity.
Qed.

Lemma save_is_single_use_witness :
  OgResource.abort
    (idle (with_response (RPlain (VObj [("name", VStr "Bea")])) ana))
  = (idle (with_response (RPlain (VObj [("name", VStr "Bea")])) ana), Throw TypeError).
Proof.
  exact (proj2 (proj2 (save_is_single_use ana _ OgApi.initial
                         (MkApiResponse true "OK" 200 (VObj [("name", VStr "Bea")]))
                         (Ret (OgApi.MkFetchResponse true 200 "OK"
                                 (Ret (VObj [("name", VStr "Bea")]))))
                         eq_refl))).
Defined.

(** ** The getters after [save] *)

(** X18.  After a [save] that returned, the failure getters of the
    instance read the body of the answer and not the transport's result:
    [FAILED], [FAILED_MESSAGE] and [FAILED_CODE] are the [failed],
    [message] and [status] properties of the transport's [$response.data],
    [FAILED] is falsy, [FAILED_BY_SESSION_EXPIRE] compares the body's
    [status] and not the HTTP status, and [IS_CREATING] and [IS_SAVING]
    are false. *)
Theorem getters_read_the_body_after_save (r r' : Resource) (st st' : OgApi.State)
    (fetched : Outcome OgApi.FetchResponse) (mismatch : Z) :
  OgResource.save st fetched r = (r', st', Ret tt) ->
  Getters.FAILED r' = Ret (Js.prop (data st') "failed") /\
  Js.truthy (Js.prop (data st') "failed") = false /\
  Getters.FAILED_MESSAGE r' = Ret (Js.prop (data st') "message") /\
  Getters.FAILED_CODE r' = Ret (Js.prop (data st') "status") /\
  Getters.FAILED_BY_SESSION_EXPIRE mismatch r' =
    Ret (Getters.strict_equals_number (Js.prop (data st') "status") mismatch) /\
  Getters.IS_CREATING r' = false /\ Getters.IS_SAVING r' = false.
Proof.
  intros H.
  destruct (save_returned_state _ _ _ _ _ H) as (payload & a & -> & _ & P & N & F).
  apply post_returns_data in P. subst payload.
  unfold Getters.FAILED, Getters.FAILED_MESSAGE, Getters.FAILED_BY_SESSION_EXPIRE,
    Getters.FAILED_CODE, Getters.IS_CREATING, Getters.IS_SAVING.
  destruct r as [api x f c a0 k s p]. simpl. rewrite N. simpl. auto 10.
Qed.

Lemma getters_read_the_body_after_save_witness :
  Getters.FAILED_BY_SESSION_EXPIRE 419
    (idle (with_response (RPlain (VObj [])) ana)) = Ret false.
Proof.
  exact (proj1 (proj2 (proj2 (proj2 (proj2
           (getters_read_the_body_after_save ana _ OgApi.initial
              (MkApiResponse false "Expired" 419 (VObj [])) expired 419 eq_refl)))))).
Defined.

(** ** Declarations are never withdrawn *)

Lemma keys_assign_keeps {A} (key : string) (v : A) (l : list (string * A)) (q : string) :
  In q (Js.keys l) -> In q (Js.keys (Js.assign key v l)).
Proof.
  induction l as [|[k x] l IH]; simpl; [intros []|].
  destruct (k =? key)%string eqn:E; simpl; intros [<-|H]; auto.
Qed.

Lemma keeps_shape_grows (m : Method) : keeps_shape m -> grows m.
Proof.
  intros K r. destruct (K r) as [-> ->]. split; [|auto].
  exists []. now rewrite app_nil_r.
Qed.

Lemma andThen_grows (m1 m2 : Method) : grows m1 -> grows m2 -> grows (andThen m1 m2).
Proof.
  intros K1 K2 r. unfold andThen. specialize (K1 r).
  destruct (m1 r) as [r1 [[]|e|]]; simpl in *; auto.
  destruct K1 as [[l1 F1] C1]. destruct (K2 r1) as [[l2 F2] C2]. split.
  - exists (l1 ++ l2)%list. now rewrite F2, F1, app_assoc.
  - auto.
Qed.

Lemma forEach_grows {A} (xs : list A) (body : A -> Method) :
  (forall x, grows (body x)) -> grows (forEach xs body).
Proof.
  intros K. induction xs as [|x xs IH]; simpl.
  - apply keeps_shape_grows. intros r. now split.
  - apply andThen_grows; auto.
Qed.

Lemma fillable_grows (path : string) : grows (Body.fillable path).
Proof.
  intros r. destruct r. simpl. split; [now exists [path] | auto].
Qed.

Lemma cast_grows (path : string) (type : CastType) : grows (Body.cast path type).
Proof.
  unfold Body.cast. apply andThen_grows; [|apply fillable_grows].
  intros r. destruct r. simpl. split.
  - exists []. now rewrite app_nil_r.
  - intros q. apply keys_assign_keeps.
Qed.

Lemma define_grows (lo : Lower) (casts : list (string * CastType)) :
  grows (Body.define lo casts).
Proof.
  unfold Body.define. apply andThen_grows.
  - apply forEach_grows. intros path.
    destruct (Js.lookup path casts); [apply cast_grows|].
    apply keeps_shape_grows. intros r. now split.
  - apply keeps_shape_grows, (reset_keeps lo).
Qed.

(** X19.  No operation withdraws a declaration.  Whatever [define],
    [cast], [fillable], [fill], [set], [save], [abort] or [reset] does,
    and whether it returns or throws, the fillable list afterwards is the
    list before with paths added at its end, and every path that had a
    cast still has one. *)
Theorem no_operation_withdraws_a_declaration (op : Op) (r : Resource) :
  (exists more, r_fillable (run op r) = (r_fillable r ++ more)%list) /\
  (forall path, In path (Js.keys (r_casts r)) -> In path (Js.keys (r_casts (run op r)))).
Proof.
  destruct op; simpl.
  - apply define_grows.
  - apply cast_grows.
  - apply fillable_grows.
  - apply (keeps_shape_grows _ (fill_keeps _ _)).
  - apply (keeps_shape_grows _ (set_keeps _ _ _)).
  - destruct (save_keeps (OgResource.classes r) st fetched r) as [C F].
    unfold OgResource.save. rewrite C, F. split; [|auto].
    exists []. now rewrite app_nil_r.
  - apply (keeps_shape_grows _ (abort_keeps _)).
  - apply (keeps_shape_grows _ (reset_keeps _)).
Qed.

(** ** Casting is idempotent *)

(** X20.  Within the safe integers, casting is idempotent for every
    declared type but a class and [decimal]: an integer of the safe range
    casts to itself as [integer], its decimal numeral being read back by
    [parseInt]; an [integer] cast hands back such an integer; and so the
    value [getCastValue] hands back for a path casts to itself under the
    same casts.  An integer beyond 2^53 - 1 prints rounded or with an
    exponent and does not come back: it is not among the values, and
    nothing is said of it. *)
Theorem cast_is_idempotent (config : Collab) (key : string)
    (casts : list (string * CastType)) :
  (Js.lookup key casts = Some (TName "integer") ->
   forall z, Js.safe z = true ->
     OgResource.getCastValue config key casts (VNum (NInt z)) = Ret (VNum (NInt z))) /\
  ((forall type, Js.lookup key casts <> Some (TClass type)) ->
   Js.lookup key casts <> Some (TName "decimal") ->
   forall value out,
     OgResource.getCastValue config key casts value = Ret out ->
     (Js.lookup key casts = Some (TName "integer") ->
      exists z, out = VNum (NInt z) /\ Js.safe z = true) /\
     OgResource.getCastValue config key casts out = Ret out).
Proof.
  unfold OgResource.getCastValue, Body.getCastValue.
  assert (I : forall z, Js.safe z = true ->
            (let* n := Js.parseInt (VNum (NInt z)) in Ret (Js.or_zero n))
            = Ret (VNum (NInt z))).
  { intros z S. rewrite (proj1 (parse_printed z S)). cbn [bind].
    unfold Js.or_zero. simpl. destruct (z =? 0) eqn:E; simpl; [|reflexivity].
    apply Z.eqb_eq in E. now subst. }
  split.
  { intros L z S. rewrite L. simpl. exact (I z S). }
  intros C D value out G.
  assert (O : orNull (orNull value) = orNull value) by (now destruct value).
  destruct (Js.lookup key casts) as [[name|type]|];
    [| now elim (C type) | split; [discriminate | injection G as <-; now rewrite O]].
  destruct name as [|c name']; [split; [discriminate | injection G as <-; now rewrite O]|].
  set (name := String c name') in *.
  destruct (name =? "boolean")%string eqn:Eb.
  { apply String.eqb_eq in Eb. split; [rewrite Eb; discriminate|].
    injection G as <-. simpl. now destruct (Js.truthy (orNull value)). }
  destruct (name =? "string")%string eqn:Es.
  { apply String.eqb_eq in Es. split; [rewrite Es; discriminate|].
    destruct (Js.truthy (orNull value)).
    - destruct (Js.toString (orNull value)) as [s| |]; try discriminate.
      cbn [bind] in G. injection G as <-. cbn [orNull]. now destruct s.
    - injection G as <-. reflexivity. }
  destruct (name =? "integer")%string eqn:Ei.
  { destruct (Js.parseInt (orNull value)) as [n| |] eqn:P; try discriminate.
    cbn [bind] in G. injection G as <-.
    destruct (or_zero_safe n) as (z & -> & S & Z).
    - intros z ->. unfold Js.parseInt in P.
      destruct (Js.toString (orNull value)) as [s| |]; try discriminate.
      exact (proj1 (parsed_is_safe s z) P).
    - split; [eauto|]. cbn [orNull]. exact (I z S). }
  destruct (name =? "decimal")%string eqn:Ed.
  { apply String.eqb_eq in Ed. now rewrite Ed in D. }
  split; [|injection G as <-; now rewrite O].
  intros L. assert (E : name = "integer") by congruence.
  rewrite E in Ei. discriminate.
Qed.

Lemma cast_is_idempotent_witness :
  OgResource.getCastValue CUndefined "age" [("age", TName "integer")] (VNum (NInt (-12)))
    = Ret (VNum (NInt (-12))) /\
  OgResource.getCastValue CUndefined "age" [("age", TName "integer")] (VNum (NInt 7))
    = Ret (VNum (NInt 7)).
Proof.
  split.
  - exact (proj1 (cast_is_idempotent CUndefined "age" [("age", TName "integer")])
             eq_refl (-12) eq_refl).
  - apply (proj2 (cast_is_idempotent CUndefined "age" [("age", TName "integer")]))
      with (value := VStr "7x").
    + intros type. discriminate.
    + discriminate.
    + reflexivity.
Defined.

(** ** [define] declares what it is given *)

Lemma cast_declares (path : string) (type : CastType) (r : Resource) :
  declared path type (fst (Body.cast path type r)).
Proof.
  destruct r. unfold Body.cast, andThen, Body.fillable, declared. simpl. split.
  - apply lookup_assign_same.
  - apply in_or_app. right. now left.
Qed.

Lemma cast_keeps_declared (path path' : string) (type type' : CastType) (r : Resource) :
  (path' = path -> type' = type) ->
  declared path type r -> declared path type (fst (Body.cast path' type' r)).
Proof.
  intros E [L I]. destruct (string_dec path' path) as [->|N].
  - rewrite (E eq_refl). apply cast_declares.
  - destruct r. unfold Body.cast, andThen, Body.fillable, declared. simpl in *. split.
    + now rewrite lookup_assign_other.
    + apply in_or_app. now left.
Qed.

(** X21.  [define] declares what it is given, whether its closing snapshot
    returns or throws: every path of the object passed has the type given
    for it and is fillable afterwards, whatever the instance declared
    before. *)
Theorem define_declares_its_casts (casts : list (string * CastType)) (r : Resource)
    (path : string) (type : CastType) :
  Js.lookup path casts = Some type ->
  declared path type (fst (OgResource.define casts r)).
Proof.
  intros L. unfold OgResource.define, Body.define.
  set (lo := level _). clearbody lo.
  set (step := fun (p : string) (r0 : Resource) =>
                 match Js.lookup p casts with
                 | Some t => Body.cast p t r0
                 | None => (r0, Ret tt)
                 end).
  assert (K : forall p r0, declared path type r0 -> declared path type (fst (step p r0))).
  { intros p r0 D. unfold step. destruct (Js.lookup p casts) as [t|] eqn:E; [|exact D].
    apply cast_keeps_declared; [|exact D]. intros ->. congruence. }
  assert (R : forall xs r0, exists r1, forEach xs step r0 = (r1, Ret tt)).
  { induction xs as [|x xs IH]; intros r0; simpl; [eauto|].
    unfold andThen. unfold step at 1.
    destruct (Js.lookup x casts); [|apply IH].
    unfold Body.cast, andThen, Body.fillable. apply IH. }
  assert (D : forall xs r0, In path xs -> declared path type (fst (forEach xs step r0))).
  { induction xs as [|x xs IH]; intros r0; simpl; [intros []|].
    intros I. unfold andThen.
    destruct (R [x] r0) as [r1 E1]. simpl in E1. unfold andThen in E1.
    assert (S1 : step x r0 = (r1, Ret tt)).
    { destruct (step x r0) as [r2 [[]|e|]]; congruence. }
    rewrite S1. destruct (string_dec x path) as [->|N].
    - apply forEach_invariant; [intros; now apply K|].
      replace r1 with (fst (step path r0)) by now rewrite S1.
      unfold step. rewrite L. apply cast_declares.
    - destruct I as [->|I]; [congruence|]. now apply IH. }
  unfold andThen.
  specialize (D (Js.keys casts) r (lookup_keys _ _ _ L)).
  destruct (forEach (Js.keys casts) _ r) as [r1 [[]|e|]]; simpl in D; try exact D.
  destruct (reset_keeps lo r1) as [C F]. unfold Body.reset in C, F.
  unfold declared. now rewrite C, F.
Qed.

Lemma define_declares_its_casts_witness :
  declared "age" (TName "integer")
    (fst (OgResource.define [("name", TName "string"); ("age", TName "integer")]
            counter_resource)).
Proof.
  exact (define_declares_its_casts [("name", TName "string"); ("age", TName "integer")]
           counter_resource "age" (TName "integer") eq_refl).
Defined.

(** ** [toJSON] and the store *)

(** X22.  [toJSON()] is a pure read exactly as far as the cast paths part
    from one another.  When no cast path extends another, the call leaves
    [$attributes] as they were.  When one does, the call can write: on the
    instance with the casts [a] and [a.b] that holds [{a: {c: 1}}], it
    returns [{a: {c: 1, b: 0}}] and leaves that stored too, the stored
    object at [a] being the one put into the output. *)
Theorem toJSON_writes_only_through_overlap :
  (forall r body,
     separate (r_casts r) -> OgResource.toJSON r = Ret body ->
     OgResource.toJSON_store r = Ret (r_attributes r)) /\
  (reachable annex /\
   r_attributes annex = [("a", VObj [("c", VNum (NInt 1))])] /\
   OgResource.toJSON annex
     = Ret [("a", VObj [("c", VNum (NInt 1)); ("b", VNum (NInt 0))])] /\
   OgResource.toJSON_store annex
     = Ret [("a", VObj [("c", VNum (NInt 1)); ("b", VNum (NInt 0))])]).
Proof.
  split.
  - intros r body S T. exact (toJSON_store_apart _ r body S T).
  - split; [|repeat split].
    apply (reach_run (OpFill (VObj [("a", VObj [("c", VNum (NInt 1))])]))).
    apply (reach_run (OpCast "a.b" (TName "integer"))).
    apply (reach_run (OpCast "a" (TName "object"))).
    apply (reach_constructor transport VUndefined "annexes"). reflexivity.
Qed.

Lemma toJSON_writes_only_through_overlap_witness :
  OgResource.toJSON_store tenant = Ret [("name", VStr "Ana")].
Proof.
  assert (Sep : separate (r_casts tenant)) by (simpl; repeat constructor).
  exact (proj1 toJSON_writes_only_through_overlap tenant
           [("address", VObj [("city", VStr "")]); ("name", VStr "Ana")] Sep eq_refl).
Defined.
